(** * Graph-RAG: entity resolution and traversal strategy engine

    A shallow embedding of [traversal_engine.py] (class
    [SmartTraversalEngine]) and [entity_extractor.py] (class
    [QueryTimeEntityExtractor]), with the properties of the specification
    that concern them.

    Conventions of the embedding.
    - The domain configuration is JSON read by [json.load]; its values are
      the dynamically typed [value]s below (JSON numbers are restricted to
      integers).  Every [pattern.get(k, d)], [pattern[k]], truthiness test
      and [min] of the source is modelled with the Python behaviour on
      each shape of value, including the exception raised.
    - Nodes, edges and store rows are records.  Ids are strings, as the
      source annotates them ([entry_ids: list[str]], [seen_ids: set[str]]);
      a row column read with [row.get] is a [col], which separates a
      missing key from a null.
    - The store ([connector.execute_query]) is a parameter: an arbitrary
      function from the query and the store state to rows or a failure.
    - The similarity capability ([Levenshtein.ratio]) is a parameter too;
      the floats it returns and the threshold they are compared with are
      the rationals they denote.
    - Methods are computations in a monad [M] that threads the object
      ([self]), may raise, and records the trace of registry lookups and
      store queries the call performed.
    - Strings are sequences of 8-bit characters, read as the code points
      below 256.

    The definitions come first; the lemmas and the theorems on the claims
    of the specification follow, module by module. *)

From stdpp Require Import gmap strings list sorting.
From Stdlib Require Import ZArith QArith Ascii.

#[local] Set Warnings "-register-all".
#[local] Close Scope Q_scope.

(** ** Python values and exceptions *)

Module Py.

Inductive value :=
| VNone
| VBool (b : bool)
| VInt (z : Z)
| VStr (s : string)
| VList (l : list value)
| VDict (d : gmap string value).

Inductive exn :=
| KeyError (key : string)
| TypeError
| AttributeError
| IndexError
| ImportError
| StoreError (msg : string).

(** [bool(v)]: None, False, 0, the empty string, list and dict are falsy. *)
Definition truthy (v : value) : bool :=
  match v with
  | VNone => false
  | VBool b => b
  | VInt z => negb (z =? 0)%Z
  | VStr s => negb (String.eqb s "")
  | VList l => match l with [] => false | _ => true end
  | VDict d => negb (bool_decide (d = ∅))
  end.

(** [d.get(k, default)] on a dict. *)
Definition dict_get (d : gmap string value) (k : string) (default : value) : value :=
  match d !! k with
  | Some v => v
  | None => default
  end.

(** [d[k]] on a dict: raises [KeyError]. *)
Definition dict_item (d : gmap string value) (k : string) : exn + value :=
  match d !! k with
  | Some v => inr v
  | None => inl (KeyError k)
  end.

(** [v == s] for a string literal [s]: only a string compares equal. *)
Definition eq_str (v : value) (s : string) : bool :=
  match v with
  | VStr s' => String.eqb s' s
  | _ => false
  end.

(** [len(v)]: defined on strings, lists and dicts. *)
Definition len (v : value) : exn + Z :=
  match v with
  | VStr s => inr (Z.of_nat (String.length s))
  | VList l => inr (Z.of_nat (length l))
  | VDict d => inr (Z.of_nat (size d))
  | _ => inl TypeError
  end.

(** The items [for x in v] walks through: the elements of a list, the
    characters of a string, the keys of a dict. *)
Definition iter (v : value) : exn + list value :=
  match v with
  | VStr s => inr ((λ c, VStr (String c EmptyString)) <$> String.list_ascii_of_string s)
  | VList l => inr l
  | VDict d => inr ((λ kv, VStr kv.1) <$> map_to_list d)
  | _ => inl TypeError
  end.

(** The number a value stands for in a comparison with an [int]:
    [bool] is a subclass of [int]. *)
Definition as_int (v : value) : option Z :=
  match v with
  | VInt z => Some z
  | VBool b => Some (if b then 1 else 0)%Z
  | _ => None
  end.

(** [min(v, n)] for an [int] [n]: the first argument unless the second is
    strictly smaller; comparing an [int] with anything but a number
    raises [TypeError]. *)
Definition min_int (v : value) (n : Z) : exn + value :=
  match as_int v with
  | Some z => inr (if (n <? z)%Z then VInt n else v)
  | None => inl TypeError
  end.

End Py.
Export Py.

(** ** The graph data the two components exchange *)

Abbreviation props := (gmap string value).

(** A node dict [{"id", "label", "name", "properties"}]. *)
Record Node := mkNode {
  node_id : string;
  node_label : option string;
  node_name : value;
  node_properties : props;
}.

(** A relationship dict [{"source_id", "target_id", "type", "properties"}]. *)
Record Edge := mkEdge {
  edge_source_id : string;
  edge_target_id : string;
  edge_type : option string;
  edge_properties : props;
}.

(** A column of a result row: the key may be missing from the row dict,
    or present with a null. *)
Inductive col (A : Type) :=
| Missing
| Null
| Has (a : A).
Arguments Missing {A}.
Arguments Null {A}.
Arguments Has {A} a.

(** [row.get(k)]: [None] for a missing key and for a null. *)
Definition col_get {A} (c : col A) : option A :=
  match c with
  | Has a => Some a
  | _ => None
  end.

(** [row.get(k, default)]: the default only for a missing key. *)
Definition col_get_default {A} (c : col A) (default : A) : option A :=
  match c with
  | Missing => Some default
  | Null => None
  | Has a => Some a
  end.

(** Truthiness of an optional string: [None] and the empty string are falsy. *)
Definition truthy_str (o : option string) : bool :=
  match o with
  | Some s => negb (String.eqb s "")
  | None => false
  end.

(** [row.get(k) or {}] for a property map. *)
Definition props_or_empty (c : col props) : props :=
  match col_get c with
  | Some p => p
  | None => ∅
  end.

(** ** Methods *)

Module Method.

Section method.

Context {Self Event : Type}.

(** A method: from the object to an outcome, the object afterwards and
    the events of the call, oldest first. *)
Definition M (A : Type) : Type := Self → (exn + A) * Self * list Event.

Definition ret {A} (a : A) : M A := λ self, (inr a, self, []).

Definition bind {A B} (m : M A) (k : A → M B) : M B := λ self,
  match m self with
  | (inl e, self', tr) => (inl e, self', tr)
  | (inr a, self', tr) =>
      let '(r, self'', tr') := k a self' in (r, self'', tr ++ tr')
  end.

(** A pure step that may raise. *)
Definition lift {A} (r : exn + A) : M A := λ self, (r, self, []).

(** Reading an attribute of [self]. *)
Definition get {A} (field : Self → A) : M A := λ self, (inr (field self), self, []).

(** The three components of what a call yields. *)
Definition outcome {A} (r : (exn + A) * Self * list Event) : exn + A := r.1.1.
Definition self_after {A} (r : (exn + A) * Self * list Event) : Self := r.1.2.
Definition trace {A} (r : (exn + A) * Self * list Event) : list Event := r.2.

End method.

Arguments M : clear implicits.

Notation "'let*' x ':=' m 'in' k" := (bind m (λ x, k))
  (at level 10, x name, m at level 100, k at level 200).

End Method.
Import Method.

(** ** Collecting without duplicates *)

(** The idiom [if key(x) not in seen: seen.add(key(x)); out.append(x)],
    on the pair of [seen] and [out]. *)
Definition add_unseen {A} (key : A → string) (acc : gset string * list A) (x : A)
  : gset string * list A :=
  if bool_decide (key x ∈ acc.1) then acc
  else ({[key x]} ∪ acc.1, acc.2 ++ [x]).

(** A list deduplicated by key, the first element of each key kept: what
    the specification calls first-seen order with duplicates removed. *)
Fixpoint first_by {A} (key : A → string) (l : list A) : list A :=
  match l with
  | [] => []
  | x :: l' => x :: filter (λ y, key y ≠ key x) (first_by key l')
  end.

(** ** The traversal engine ([traversal_engine.py]) *)

Module Traversal.

(** A flat result row, of the shape of [_EDGE_RETURN]. *)
Record Row := mkRow {
  source_id : col string;
  source_label : col string;
  source_props : col props;
  rel_type : col string;
  rel_props : col props;
  target_id : col string;
  target_label : col string;
  target_props : col props;
}.

(** Which endpoint the entry ids are matched on in a [targeted] query:
    the [where]/[match] pair chosen from [entry_anchor]. *)
Inductive anchor_side :=
| AnchorEither   (* elementId(src) IN $ids OR elementId(tgt) IN $ids, undirected *)
| AnchorTarget   (* elementId(tgt) IN $ids, directed *)
| AnchorSource.  (* elementId(src) IN $ids, directed *)

(** The Cypher text a strategy builds, as the template it instantiates and
    the values interpolated into it.  A node pattern [(x:{label})] or
    [(x)] is an [option value]: the label when it is truthy. *)
Inductive cypher :=
| CyTargeted (src : option value) (rel_name : value) (tgt : option value)
             (anchor : anchor_side)                       (* ... LIMIT 50 *)
| CyChained (entry_node : option value)
            (path_tokens : list (value * option value))   (* WITH path LIMIT 100 *)
| CyVariableHop (min_h max_h : value)
    (* (source)-[*{min_h}..{max_h}]-(target), WITH path LIMIT 60 *)
| CyShortestPath (max_h : value)
    (* shortestPath((a)-[*..{max_h}]-(b)), WITH path LIMIT 20 *)
| CySharedNeighbor
    (* size(connected_entries) >= $min_conn *)
| CyGeneral (limit : Z).
    (* (src)-[r]-(tgt) ... LIMIT {limit} *)

(** A call [execute_query(cypher, params)]; [params] always has ["ids"],
    and ["min_conn"] for [shared_neighbor]. *)
Record Query := mkQuery {
  q_cypher : cypher;
  q_ids : list string;
  q_min_conn : option value;
}.

(** What a call does that is visible outside the engine. *)
Inductive event :=
| EvLookup (intent : string)   (* self._intent_patterns.get(intent) *)
| EvQuery (q : Query).         (* self.connector.execute_query(...) *)

(** The subgraph dict; [strategy] and [hop_depth] are set by [traverse]
    after [_build_subgraph] has returned the other two keys. *)
Record Subgraph := mkSubgraph {
  nodes : list Node;
  relationships : list Edge;
  strategy : option value;
  hop_depth : option value;
}.

(** The engine object: the connector (the state of the store behind it),
    the pattern registry and the node limit of the general strategy
    (30 when the configuration gives none). *)
Record SmartTraversalEngine (Store : Type) := mkEngine {
  connector : Store;
  _intent_patterns : gmap string value;
  _general_limit : Z;
}.
Arguments mkEngine {Store}.
Arguments connector {Store}.
Arguments _intent_patterns {Store}.
Arguments _general_limit {Store}.

(** *** Subgraph assembly (pure) *)

Inductive side := SideSource | SideTarget.

Definition side_id (row : Row) (s : side) : col string :=
  match s with SideSource => source_id row | SideTarget => target_id row end.
Definition side_label (row : Row) (s : side) : col string :=
  match s with SideSource => source_label row | SideTarget => target_label row end.
Definition side_props (row : Row) (s : side) : col props :=
  match s with SideSource => source_props row | SideTarget => target_props row end.

(** The body of the first loop, on [seen_ids] and [nodes]. *)
Definition seed_entry (acc : gset string * list Node) (en : Node)
  : gset string * list Node :=
  add_unseen node_id acc en.

Definition add_endpoint (row : Row) (acc : gset string * list Node) (s : side)
  : gset string * list Node :=
  let nid := col_get (side_id row s) in
  match nid with
  | Some i =>
      if truthy_str nid && negb (bool_decide (i ∈ acc.1)) then
        let props := props_or_empty (side_props row s) in
        let label := col_get (side_label row s) in
        ({[i]} ∪ acc.1,
         acc.2 ++ [ {| node_id := i;
                       node_label := Some (if truthy_str label
                                           then default "Unknown"%string label
                                           else "Unknown"%string);
                       node_name := dict_get props "name" (VStr "");
                       node_properties := props |} ])
      else acc
  | None => acc
  end.

(** [row.get("source_id") and row.get("target_id")] *)
Definition has_endpoints (row : Row) : bool :=
  truthy_str (col_get (source_id row)) && truthy_str (col_get (target_id row)).

(** The edge a row contributes: none unless both endpoint ids are there. *)
Definition row_edge (row : Row) : option Edge :=
  if has_endpoints row then
    match col_get (source_id row), col_get (target_id row) with
    | Some s, Some t =>
        Some {| edge_source_id := s;
                edge_target_id := t;
                edge_type := col_get_default (rel_type row) "RELATED_TO";
                edge_properties := props_or_empty (rel_props row) |}
    | _, _ => None
    end
  else None.

Definition add_row (acc : gset string * list Node * list Edge) (row : Row)
  : gset string * list Node * list Edge :=
  let sn := foldl (add_endpoint row) acc.1 [SideSource; SideTarget] in
  (sn, match row_edge row with
       | Some e => acc.2 ++ [e]
       | None => acc.2
       end).

Definition _build_subgraph (rows : list Row) (entry_nodes : list Node) : Subgraph :=
  let seeded := foldl seed_entry (∅, []) entry_nodes in
  let '(_, nodes, rels) := foldl add_row (seeded, []) rows in
  {| nodes := nodes; relationships := rels; strategy := None; hop_depth := None |}.

(** *** The strategies *)

Section engine.

Context {Store : Type}.
(** [connector.execute_query]: rows, or the failure of the store. *)
Variable execute_query : Query → Store → (string + list Row) * Store.

Abbreviation M := (Method.M (SmartTraversalEngine Store) event).

Definition registry_get (intent : string) : M (option value) := λ self,
  (inr (_intent_patterns self !! intent), self, [EvLookup intent]).

(** The engine with the store in the state a query left it in. *)
Definition with_store (self : SmartTraversalEngine Store) (store : Store)
  : SmartTraversalEngine Store :=
  mkEngine store (_intent_patterns self) (_general_limit self).

Definition run_query (q : Query) : M (list Row) := λ self,
  match execute_query q (connector self) with
  | (inl msg, store') => (inl (StoreError msg), with_store self store', [EvQuery q])
  | (inr rows, store') => (inr rows, with_store self store', [EvQuery q])
  end.

(** [f"(x:{label})" if label else "(x)"] *)
Definition node_pattern (label : value) : option value :=
  if truthy label then Some label else None.

Definition _targeted (entry_ids : list string) (pattern : gmap string value)
  : M (list Row * value) :=
  let src_label := dict_get pattern "source_label" (VStr "") in
  let* rel_name := lift (dict_item pattern "relationship") in
  let tgt_label := dict_get pattern "target_label" (VStr "") in
  let anchor := dict_get pattern "entry_anchor" (VStr "source") in
  let src := node_pattern src_label in
  let tgt := node_pattern tgt_label in
  let where_match :=
    if eq_str anchor "either" then AnchorEither
    else if eq_str anchor "target" then AnchorTarget
    else AnchorSource in
  let* rows := run_query (mkQuery (CyTargeted src rel_name tgt where_match)
                                  entry_ids None) in
  ret (rows, VInt 1).

(** The body of the loop over [hops]: [hop["relationship"]] needs a dict. *)
Definition chain_step (hop : value) : exn + (value * option value) :=
  match hop with
  | VDict h =>
      match dict_item h "relationship" with
      | inl e => inl e
      | inr rel => inr (rel, node_pattern (dict_get h "target_label" (VStr "")))
      end
  | _ => inl TypeError
  end.

Fixpoint chain_steps (hops : list value) : exn + list (value * option value) :=
  match hops with
  | [] => inr []
  | hop :: rest =>
      match chain_step hop with
      | inl e => inl e
      | inr tok =>
          match chain_steps rest with
          | inl e => inl e
          | inr toks => inr (tok :: toks)
          end
      end
  end.

Definition _chained (entry_ids : list string) (pattern : gmap string value)
  : M (list Row * value) :=
  let* hops := lift (dict_item pattern "hops") in
  let entry_label := dict_get pattern "entry_label" (VStr "") in
  let* n_hops := lift (len hops) in
  let entry_node := node_pattern entry_label in
  let* items := lift (iter hops) in
  let* path_tokens := lift (chain_steps items) in
  let* rows := run_query (mkQuery (CyChained entry_node path_tokens) entry_ids None) in
  ret (rows, VInt n_hops).

Definition _variable_hop (entry_ids : list string) (pattern : gmap string value)
  : M (list Row * value) :=
  let min_h := dict_get pattern "min_hops" (VInt 1) in
  let max_h := dict_get pattern "max_hops" (VInt 2) in
  let* rows := run_query (mkQuery (CyVariableHop min_h max_h) entry_ids None) in
  ret (rows, max_h).

(** The [hop_depth] the source computes from a ["path_lens"] column after
    the query is never used, and the rows have no such column: the
    function returns [max_h]. *)
Definition _shortest_path (entry_ids : list string) (pattern : gmap string value)
  : M (list Row * value) :=
  let max_h := dict_get pattern "max_hops" (VInt 6) in
  if (Z.of_nat (length entry_ids) <? 2)%Z then
    _variable_hop entry_ids (<["min_hops" := VInt 1]> (<["max_hops" := max_h]> ∅))
  else
    let* rows := run_query (mkQuery (CyShortestPath max_h) entry_ids None) in
    ret (rows, max_h).

Definition _shared_neighbor (entry_ids : list string) (pattern : gmap string value)
  : M (list Row * value) :=
  let* min_conn := lift (min_int (dict_get pattern "min_connections" (VInt 2))
                                (Z.of_nat (length entry_ids))) in
  let* rows := run_query (mkQuery CySharedNeighbor entry_ids (Some min_conn)) in
  ret (rows, VInt 1).

Definition _general (entry_ids : list string) (_pattern : gmap string value)
  : M (list Row * value) :=
  let* limit := get _general_limit in
  let* rows := run_query (mkQuery (CyGeneral limit) entry_ids None) in
  ret (rows, VInt 1).

(** *** The public method *)

(** The [dispatch] dict of [traverse]. *)
Definition dispatch (s : string)
  : option (list string → gmap string value → M (list Row * value)) :=
  if String.eqb s "targeted" then Some _targeted
  else if String.eqb s "chained" then Some _chained
  else if String.eqb s "variable_hop" then Some _variable_hop
  else if String.eqb s "shortest_path" then Some _shortest_path
  else if String.eqb s "shared_neighbor" then Some _shared_neighbor
  else None.

(** [dispatch.get(strategy, self._general)]: the key must be hashable. *)
Definition dispatch_get (strategy : value)
  : exn + (list string → gmap string value → M (list Row * value)) :=
  match strategy with
  | VStr s => inr (default _general (dispatch s))
  | VList _ | VDict _ => inl TypeError
  | _ => inr _general
  end.

(** [bool(pattern)] for the result of [dict.get]. *)
Definition is_set (pattern : option value) : bool :=
  match pattern with
  | Some v => truthy v
  | None => false
  end.

(** [pattern.get("strategy", "targeted")]: the attribute exists on dicts. *)
Definition strategy_of (pattern : option value) : exn + value :=
  match pattern with
  | Some (VDict d) => inr (dict_get d "strategy" (VStr "targeted"))
  | _ => inl AttributeError
  end.

(** [pattern or {}], past [strategy_of]: a pattern that is set is a dict
    there, and one that is not gives the empty dict. *)
Definition or_empty (pattern : option value) : gmap string value :=
  match pattern with
  | Some (VDict d) => d
  | _ => ∅
  end.

Definition empty_subgraph : Subgraph :=
  {| nodes := []; relationships := [];
     strategy := Some (VStr "none"); hop_depth := Some (VInt 0) |}.

Definition traverse (entry_nodes : list Node) (intent : string) : M Subgraph :=
  match entry_nodes with
  | [] => ret empty_subgraph
  | _ =>
      let entry_ids := node_id <$> entry_nodes in
      let* pattern := registry_get intent in
      let* strategy := lift (if is_set pattern then strategy_of pattern
                             else inr (VStr "general")) in
      let* fn := lift (dispatch_get strategy) in
      let* res := fn entry_ids (or_empty pattern) in
      let subgraph := _build_subgraph res.1 entry_nodes in
      ret {| nodes := nodes subgraph;
             relationships := relationships subgraph;
             strategy := Some strategy;
             hop_depth := Some res.2 |}
  end.

End engine.

(** The invariant of both loops of [_build_subgraph]: [seen_ids] is the
    set of ids of [nodes], and no id occurs twice. *)
Definition seen_ok (acc : gset string * list Node) : Prop :=
  NoDup (node_id <$> acc.2) ∧ ∀ i, i ∈ acc.1 ↔ i ∈ node_id <$> acc.2.

(** *** A sample engine *)

(** A store that answers every query with the one edge Aspirin -CAUSES-> Nausea. *)
Definition aspirin : Node :=
  {| node_id := "id:1"; node_label := Some "Drug"%string; node_name := VStr "Aspirin";
     node_properties := {[ "name"%string := VStr "Aspirin" ]} |}.

Definition causes_nausea : Row :=
  {| source_id := Has "id:1"%string; source_label := Has "Drug"%string;
     source_props := Has {[ "name"%string := VStr "Aspirin" ]};
     rel_type := Has "CAUSES"%string; rel_props := Has ∅;
     target_id := Has "id:2"%string; target_label := Has "Symptom"%string;
     target_props := Has {[ "name"%string := VStr "Nausea" ]} |}.

Definition one_edge_store (q : Query) (store : unit) : (string + list Row) * unit :=
  (inr [causes_nausea], store).

(** A registry with one pattern per strategy the claims speak of; the
    chained pattern has lost its hop list. *)
Definition sample_patterns : gmap string value :=
  {[ "side_effects"%string :=
       VDict {[ "strategy"%string := VStr "targeted";
                "relationship"%string := VStr "CAUSES" ]};
     "indirect_symptoms"%string := VDict {[ "strategy"%string := VStr "chained" ]};
     "neighborhood"%string := VDict {[ "strategy"%string := VStr "variable_hop" ]};
     "connection"%string := VDict {[ "strategy"%string := VStr "shortest_path" ]};
     "shared_effects"%string :=
       VDict {[ "strategy"%string := VStr "shared_neighbor" ]} ]}.

Definition sample_engine : SmartTraversalEngine unit :=
  {| connector := tt; _intent_patterns := sample_patterns; _general_limit := 30 |}.

Definition nausea : Node :=
  {| node_id := "id:2"; node_label := Some "Symptom"%string; node_name := VStr "Nausea";
     node_properties := {[ "name"%string := VStr "Nausea" ]} |}.

Definition causes_edge : Edge :=
  {| edge_source_id := "id:1"; edge_target_id := "id:2";
     edge_type := Some "CAUSES"%string; edge_properties := ∅ |}.

(** A row whose target id is null. *)
Definition dangling_row : Row :=
  {| source_id := Has "id:1"%string; source_label := Has "Drug"%string;
     source_props := Has ∅; rel_type := Has "CAUSES"%string; rel_props := Has ∅;
     target_id := Null; target_label := Null; target_props := Null |}.

(** *** What a strategy call amounts to *)

(** The exceptions a malformed pattern raises. *)
Definition config_error (e : exn) : Prop :=
  e = TypeError ∨ e = AttributeError ∨ ∃ key, e = KeyError key.

(** A strategy either raises on the pattern before it touches the store,
    or issues one query on the entry ids and returns what the store
    answers, with a hop depth that does not depend on the answer. *)
Definition runs_one_query {Store : Type}
    (execute_query : Query → Store → (string + list Row) * Store)
    (entry_ids : list string) (self : SmartTraversalEngine Store)
    (r : (exn + list Row * value) * SmartTraversalEngine Store * list event) : Prop :=
  (∃ e, config_error e ∧ r = (inl e, self, []))
  ∨ ∃ q hd,
      q_ids q = entry_ids
      ∧ r = match execute_query q (connector self) with
            | (inl msg, store) =>
                (inl (StoreError msg), with_store self store, [EvQuery q])
            | (inr rows, store) =>
                (inr (rows, hd), with_store self store, [EvQuery q])
            end.

(** What a node made from a row looks like: its id and its label are
    not empty, and its name is the ["name"] property. *)
Definition row_node_ok (n : Node) : Prop :=
  node_id n ≠ ""%string
  ∧ (∃ label, node_label n = Some label ∧ label ≠ ""%string)
  ∧ node_name n = dict_get (node_properties n) "name" (VStr "").

(** The hops of the docstring of [_chained]. *)
Definition drug_symptom_chain : gmap string value :=
  {[ "strategy"%string := VStr "chained";
     "hops"%string :=
       VList [ VDict {[ "relationship"%string := VStr "TREATS";
                        "target_label"%string := VStr "Disease" ]};
               VDict {[ "relationship"%string := VStr "HAS_SYMPTOM";
                        "target_label"%string := VStr "Symptom" ]} ];
     "entry_label"%string := VStr "Drug" ]}.

(** A store that is down. *)
Definition failing_store (q : Query) (store : unit) : (string + list Row) * unit :=
  (inl "ServiceUnavailable"%string, store).

(** A registry with a strategy name the engine does not know, a pattern
    that is not a dict, a pattern without strategy, and the chain above. *)
Definition odd_patterns : gmap string value :=
  {[ "overview"%string := VDict {[ "strategy"%string := VStr "neighbourhood" ]};
     "bad"%string := VStr "targeted";
     "plain"%string := VDict {[ "relationship"%string := VStr "CAUSES" ]};
     "indirect_symptoms"%string := VDict drug_symptom_chain ]}.

Definition odd_engine : SmartTraversalEngine unit :=
  {| connector := tt; _intent_patterns := odd_patterns; _general_limit := 30 |}.

Definition ibuprofen : Node :=
  {| node_id := "id:3"; node_label := Some "Drug"%string; node_name := VStr "Ibuprofen";
     node_properties := {[ "name"%string := VStr "Ibuprofen" ]} |}.

End Traversal.

(** ** The entity extractor ([entity_extractor.py]) *)

Module Extractor.

Definition _DEFAULT_STOP_WORDS : gset string :=
  list_to_set
    [ "a"; "an"; "the"; "is"; "are"; "was"; "were"; "be"; "been"; "being";
      "have"; "has"; "had"; "do"; "does"; "did"; "will"; "would"; "could";
      "should"; "may"; "might"; "shall"; "can"; "need"; "dare"; "ought";
      "used"; "to"; "of"; "in"; "on"; "at"; "by"; "for"; "with"; "about";
      "against"; "between"; "into"; "through"; "during"; "before"; "after";
      "above"; "below"; "from"; "up"; "down"; "out"; "off"; "over"; "under";
      "again"; "further"; "then"; "once"; "and"; "but"; "or"; "nor"; "so";
      "yet"; "both"; "either"; "neither"; "not"; "only"; "own"; "same";
      "than"; "too"; "very"; "just"; "because"; "as"; "until"; "while";
      "if"; "when"; "where"; "how"; "what"; "which"; "who"; "whom"; "that";
      "this"; "these"; "those"; "i"; "me"; "my"; "myself"; "we"; "our";
      "you"; "your"; "he"; "him"; "his"; "she"; "her"; "it"; "its"; "they";
      "them"; "their"; "tell"; "give"; "show"; "find"; "get"; "let";
      "make"; "know"; "see"; "take"; "come"; "go"; "say"; "ask" ]%string.

(** *** Characters and strings *)

Definition in_range (lo hi : N) (c : ascii) : bool :=
  ((lo <=? Ascii.N_of_ascii c) && (Ascii.N_of_ascii c <=? hi))%N.

(** [c.isspace()], which is also the class [\s] of [re] and what
    [str.split()] splits on: tab to carriage return, the four separators
    28 to 31, the space, NEL and the no-break space. *)
Definition is_space (c : ascii) : bool :=
  in_range 9 13 c || in_range 28 32 c || in_range 133 133 c || in_range 160 160 c.

(** The class [a-zA-Z0-9\-]. *)
Definition is_word_char (c : ascii) : bool :=
  in_range 97 122 c || in_range 65 90 c || in_range 48 57 c || in_range 45 45 c.

(** [re.sub(r"[^a-zA-Z0-9\s\-]", " ", query)] *)
Definition clean (query : list ascii) : list ascii :=
  (λ c, if is_word_char c || is_space c then c else " "%char) <$> query.

(** [c.lower()] for a code point below 256: the capitals A to Z and the
    accented capitals 192 to 222, the multiplication sign apart, move. *)
Definition lower_char (c : ascii) : ascii :=
  if in_range 65 90 c || in_range 192 214 c || in_range 216 222 c
  then Ascii.ascii_of_N (Ascii.N_of_ascii c + 32)
  else c.

Definition lower (s : string) : string :=
  String.string_of_list_ascii (lower_char <$> String.list_ascii_of_string s).

(** [s.split()]: the maximal runs of characters that are not spaces;
    [cur] is the run being read, last character first. *)
Fixpoint split_from (cur : list ascii) (s : list ascii) : list (list ascii) :=
  match s with
  | [] => match cur with [] => [] | _ => [reverse cur] end
  | c :: s' =>
      if is_space c then
        match cur with
        | [] => split_from [] s'
        | _ => reverse cur :: split_from [] s'
        end
      else split_from (c :: cur) s'
  end.

Definition split (s : list ascii) : list string :=
  String.string_of_list_ascii <$> split_from [] s.

(** [" ".join(l)] *)
Definition join (l : list string) : string := String.concat " " l.

(** [range(k)] *)
Definition range (k : Z) : list nat := seq 0 (Z.to_nat k).

(** [not query or not query.strip()] *)
Definition blank (query : string) : bool :=
  forallb is_space (String.list_ascii_of_string query).

(** *** Keyword extraction *)

(** [tokens] *)
Definition tokenize (query : string) : list string :=
  split (lower_char <$> clean (String.list_ascii_of_string query)).

(** [content_tokens], after the fallback to all tokens. *)
Definition content_tokens (stop_words : gset string) (query : string) : list string :=
  let tokens := tokenize query in
  let content_tokens := filter (λ t, t ∉ stop_words) tokens in
  match content_tokens with
  | [] => tokens
  | _ => content_tokens
  end.

(** The body of the inner loop, on [seen] and [candidates]. *)
Definition add_phrase (content_tokens : list string) (n : nat)
    (acc : gset string * list string) (i : nat) : gset string * list string :=
  let phrase := join (take n (drop i content_tokens)) in
  add_unseen (λ p, p) acc phrase.

(** The inner loop: [for i in range(len(content_tokens) - n + 1)]. *)
Definition ngram_pass (content_tokens : list string)
    (acc : gset string * list string) (n : nat) : gset string * list string :=
  foldl (add_phrase content_tokens n) acc
        (range (Z.of_nat (length content_tokens) - Z.of_nat n + 1)).

Definition _extract_keywords (stop_words : gset string) (query : string) : list string :=
  let content_tokens := content_tokens stop_words query in
  (foldl (ngram_pass content_tokens) (∅, []) [3; 2; 1]).2.

(** *** The candidate phrases as the specification words them *)

(** The contiguous runs of [n] elements of a list, from left to right. *)
Fixpoint ngrams {A} (n : nat) (l : list A) : list (list A) :=
  match l with
  | [] => []
  | _ :: l' => (if bool_decide (n ≤ length l) then [take n l] else []) ++ ngrams n l'
  end.

(** N-grams of sizes 3, 2, 1, longest first, duplicates removed in
    first-seen order. *)
Definition spec_candidates (tokens : list string) : list string :=
  first_by (λ p, p)
    (join <$> (ngrams 3 tokens ++ ngrams 2 tokens ++ ngrams 1 tokens)).

(** [l.index(x)] *)
Fixpoint index (x : string) (l : list string) : option nat :=
  match l with
  | [] => None
  | y :: l' => if String.eqb y x then Some 0 else S <$> index x l'
  end.

(** The number of spaces of a string. *)
Definition count_spaces (s : string) : nat :=
  length (filter (λ c, c = " "%char) (String.list_ascii_of_string s)).

Definition no_space (t : string) : Prop := count_spaces t = 0.

(** *** Graph lookup *)

(** A row of the three lookup queries; [candidate_name] is returned by
    the fuzzy one only. *)
Record MatchRow := mkMatchRow {
  row_id : string;
  row_label : col string;
  row_properties : col props;
  candidate_name : col string;
}.

(** The Cypher text of a lookup: the template, the label restriction and
    the properties interpolated into it. *)
Inductive cypher :=
| CyExact (label_filter : string) (search_properties : list string)
    (* toLower(n.{prop}) = $keyword, joined by OR; LIMIT 10 *)
| CyPartial (label_filter : string) (search_properties : list string)
    (* toLower(n.{prop}) CONTAINS $keyword, joined by OR; LIMIT 10 *)
| CyFuzzy (label_filter : string) (primary_prop : string).
    (* size(toLower(n.{primary_prop})) >= $min_len AND ... <= $max_len; LIMIT 200 *)

Inductive params :=
| PKeyword (keyword : string)
| PLengths (min_len max_len : Z).

Record Query := mkQuery {
  q_cypher : cypher;
  q_params : params;
}.

(** The extractor object; [_fuzzy_available] tells whether [Levenshtein]
    could be imported when the object was made. *)
Record QueryTimeEntityExtractor (Store : Type) := mkExtractor {
  connector : Store;
  search_properties : list string;
  node_labels : option (list string);
  fuzzy_threshold : Q;
  stop_words : gset string;
  _fuzzy_available : bool;
}.
Arguments mkExtractor {Store}.
Arguments connector {Store}.
Arguments search_properties {Store}.
Arguments node_labels {Store}.
Arguments fuzzy_threshold {Store}.
Arguments stop_words {Store}.
Arguments _fuzzy_available {Store}.

(** The float written [0.85]. *)
Definition default_fuzzy_threshold : Q := (7656119366529843 # 9007199254740992)%Q.

(** The constructor; [None] is an argument left out. *)
Definition __init__ {Store} (connector : Store)
    (search_properties node_labels extra_stop_words : option (list string))
    (fuzzy_threshold : option Q) (levenshtein_installed : bool)
  : QueryTimeEntityExtractor Store :=
  {| connector := connector;
     search_properties :=
       match search_properties with
       | Some (p :: ps) => p :: ps
       | _ => ["name"%string]
       end;
     node_labels := node_labels;
     fuzzy_threshold := default default_fuzzy_threshold fuzzy_threshold;
     stop_words :=
       _DEFAULT_STOP_WORDS ∪ list_to_set (lower <$> default [] extra_stop_words);
     _fuzzy_available := levenshtein_installed |}.

Definition _row_to_node (row : MatchRow) : Node :=
  let props := props_or_empty (row_properties row) in
  {| node_id := row_id row;
     node_label := col_get_default (row_label row) "Unknown"%string;
     node_name := dict_get props "name" (VStr "");
     node_properties := props |}.

(** [scored.sort(key=lambda x: x[0], reverse=True)]: a stable sort, best
    ratio first. *)
Fixpoint insert_desc (x : Q * MatchRow) (l : list (Q * MatchRow)) : list (Q * MatchRow) :=
  match l with
  | [] => [x]
  | y :: l' => if Qle_bool y.1 x.1 then x :: l else y :: insert_desc x l'
  end.

Definition sort_desc (l : list (Q * MatchRow)) : list (Q * MatchRow) :=
  foldr insert_desc [] l.

Section extractor.

Context {Store : Type}.
(** [connector.execute_query] and [Levenshtein.ratio]. *)
Variable execute_query : Query → Store → (string + list MatchRow) * Store.
Variable ratio : string → string → Q.

Abbreviation M := (Method.M (QueryTimeEntityExtractor Store) Query).

Definition with_store (self : QueryTimeEntityExtractor Store) (store : Store)
  : QueryTimeEntityExtractor Store :=
  mkExtractor store (search_properties self) (node_labels self)
              (fuzzy_threshold self) (stop_words self) (_fuzzy_available self).

Definition run_query (q : Query) : M (list MatchRow) := λ self,
  match execute_query q (connector self) with
  | (inl msg, store') => (inl (StoreError msg), with_store self store', [q])
  | (inr rows, store') => (inr rows, with_store self store', [q])
  end.

Definition _build_label_filter (self : QueryTimeEntityExtractor Store) : string :=
  match node_labels self with
  | Some (l :: ls) => ":" +:+ String.concat "|" (l :: ls)
  | _ => ""
  end.

Definition _exact_match (keyword : string) : M (list Node) :=
  let* label_filter := get _build_label_filter in
  let* conditions := get search_properties in
  let* rows := run_query (mkQuery (CyExact label_filter conditions)
                                  (PKeyword (lower keyword))) in
  ret (_row_to_node <$> rows).

Definition _partial_match (keyword : string) : M (list Node) :=
  let* label_filter := get _build_label_filter in
  let* conditions := get search_properties in
  let* rows := run_query (mkQuery (CyPartial label_filter conditions)
                                  (PKeyword (lower keyword))) in
  ret (_row_to_node <$> rows).

(** The body of the scoring loop, on [scored]. *)
Definition score_row (kw_lower : string) (threshold : Q)
    (scored : list (Q * MatchRow)) (row : MatchRow) : list (Q * MatchRow) :=
  let candidate_name := col_get_default (candidate_name row) ""%string in
  match candidate_name with
  | Some name =>
      if truthy_str candidate_name then
        if Qle_bool threshold (ratio kw_lower name)
        then scored ++ [(ratio kw_lower name, row)]
        else scored
      else scored
  | None => scored
  end.

(** The rows [_fuzzy_match] turns into nodes: [scored[:5]] after the sort. *)
Definition best_matches (keyword : string) (threshold : Q) (rows : list MatchRow)
  : list (Q * MatchRow) :=
  let scored := foldl (score_row (lower keyword) threshold) [] rows in
  take 5 (sort_desc scored).

Definition _fuzzy_match (keyword : string) : M (list Node) :=
  let* available := get _fuzzy_available in
  let* _ := lift (if available : bool then inr tt else inl ImportError) in
  let* props := get search_properties in
  let* primary_prop := lift (match props with
                             | p :: _ => inr p
                             | [] => inl IndexError
                             end) in
  let* label_filter := get _build_label_filter in
  let kw_len := Z.of_nat (String.length keyword) in
  let min_len := (1 `max` (kw_len - kw_len `div` 2))%Z in
  let max_len := (kw_len + kw_len `div` 2)%Z in
  let* rows := run_query (mkQuery (CyFuzzy label_filter primary_prop)
                                  (PLengths min_len max_len)) in
  let* threshold := get fuzzy_threshold in
  ret ((λ p, _row_to_node p.2) <$> best_matches keyword threshold rows).

Definition _find_in_graph (keyword : string) : M (list Node) :=
  let* nodes := _exact_match keyword in
  match nodes with
  | _ :: _ => ret nodes
  | [] =>
      let* nodes := _partial_match keyword in
      match nodes with
      | _ :: _ => ret nodes
      | [] =>
          let* available := get _fuzzy_available in
          if available && bool_decide (3 < String.length keyword) then
            let* nodes := _fuzzy_match keyword in
            match nodes with
            | _ :: _ => ret nodes
            | [] => ret []
            end
          else ret []
      end
  end.

(** The loop over the keywords, on [seen_ids] and [entry_nodes]. *)
Fixpoint find_all (keywords : list string) (acc : gset string * list Node)
  : M (gset string * list Node) :=
  match keywords with
  | [] => ret acc
  | keyword :: rest =>
      let* nodes := _find_in_graph keyword in
      find_all rest (foldl (add_unseen node_id) acc nodes)
  end.

Definition extract_entry_nodes (query : string) : M (list Node) :=
  if blank query then ret []
  else
    let* stop := get stop_words in
    let keywords := _extract_keywords stop query in
    let* found := find_all keywords (∅, []) in
    ret found.2.

End extractor.

(** Whether a query is the one of the fuzzy stage. *)
Definition is_fuzzy (q : Query) : bool :=
  match q_cypher q with
  | CyFuzzy _ _ => true
  | _ => false
  end.

(** The query of the fuzzy stage for a keyword. *)
Definition fuzzy_query {Store} (keyword : string) (self : QueryTimeEntityExtractor Store)
    (primary_prop : string) : Query :=
  let kw_len := Z.of_nat (String.length keyword) in
  mkQuery (CyFuzzy (_build_label_filter self) primary_prop)
          (PLengths (1 `max` (kw_len - kw_len `div` 2)) (kw_len + kw_len `div` 2)).

(** The order of the sorted matches: no ratio is below a later one. *)
Definition by_ratio_desc (p p' : Q * MatchRow) : Prop := (p'.1 <= p.1)%Q.

(** A scored row that the fuzzy stage keeps: a row of the store's answer
    with a non-empty candidate name, paired with the similarity of that
    name to the keyword, which reaches the threshold. *)
Definition kept (ratio : string → string → Q) (kw_lower : string) (threshold : Q)
    (rows : list MatchRow) (p : Q * MatchRow) : Prop :=
  p.2 ∈ rows
  ∧ ∃ name, candidate_name p.2 = Has name ∧ name ≠ ""%string
            ∧ p.1 = ratio kw_lower name ∧ (threshold <= p.1)%Q.

(** *** A sample extractor: the misspelled query of scenario E *)

Definition aspirin_row : MatchRow :=
  {| row_id := "id:1"; row_label := Has "Drug"%string;
     row_properties := Has {[ "name"%string := VStr "Aspirin" ]};
     candidate_name := Has "aspirin"%string |}.

Definition aspartame_row : MatchRow :=
  {| row_id := "id:7"; row_label := Has "Drug"%string;
     row_properties := Has {[ "name"%string := VStr "Aspartame" ]};
     candidate_name := Has "aspartame"%string |}.

(** A store with no exact or partial match, and two names of similar length. *)
Definition sample_store (q : Query) (store : unit) : (string + list MatchRow) * unit :=
  (inr (if is_fuzzy q then [aspartame_row; aspirin_row] else []), store).

(** The similarity of "asprin" to "aspirin" is 12/13; everything else is
    taken to be one half. *)
Definition sample_ratio (a b : string) : Q :=
  if String.eqb b "aspirin" then (12 # 13)%Q else (1 # 2)%Q.

Definition sample_extractor : QueryTimeEntityExtractor unit :=
  __init__ tt None None None None true.

(** *** Tokens, lookups and where a node comes from *)

(** The characters a token is made of: [a-z0-9\-]. *)
Definition is_token_char (c : ascii) : bool :=
  in_range 97 122 c || in_range 48 57 c || in_range 45 45 c.

(** A token: a non-empty string of token characters. *)
Definition token_ok (t : string) : Prop :=
  t ≠ ""%string
  ∧ Forall (λ c, is_token_char c = true) (String.list_ascii_of_string t).

(** The queries of the exact and of the partial stage for a keyword. *)
Definition exact_query {Store} (keyword : string) (self : QueryTimeEntityExtractor Store)
  : Query :=
  mkQuery (CyExact (_build_label_filter self) (search_properties self))
          (PKeyword (lower keyword)).

Definition partial_query {Store} (keyword : string) (self : QueryTimeEntityExtractor Store)
  : Query :=
  mkQuery (CyPartial (_build_label_filter self) (search_properties self))
          (PKeyword (lower keyword)).

(** A query is a lookup of a keyword: that of one of the three stages,
    with the label restriction and the properties of the extractor. *)
Definition lookup_query {Store} (self : QueryTimeEntityExtractor Store)
    (keyword : string) (q : Query) : Prop :=
  q = exact_query keyword self
  ∨ q = partial_query keyword self
  ∨ ∃ primary_prop, head (search_properties self) = Some primary_prop
                    ∧ q = fuzzy_query keyword self primary_prop.

(** A node comes from the store: it is made by [_row_to_node] from a row
    that the store answers to a lookup of one of the keywords. *)
Definition from_store {Store}
    (execute_query : Query → Store → (string + list MatchRow) * Store)
    (self : QueryTimeEntityExtractor Store) (keywords : list string) (n : Node) : Prop :=
  ∃ keyword q store rows store',
    keyword ∈ keywords ∧ lookup_query self keyword q
    ∧ execute_query q store = (inr rows, store')
    ∧ n ∈ _row_to_node <$> rows.

(** A store that knows Aspirin by its exact name only. *)
Definition exact_store (q : Query) (store : unit) : (string + list MatchRow) * unit :=
  (inr (match q_cypher q with CyExact _ _ => [aspirin_row] | _ => [] end), store).

(** A store that is down. *)
Definition down_store (q : Query) (store : unit) : (string + list MatchRow) * unit :=
  (inl "ServiceUnavailable"%string, store).

End Extractor.

(** * Lemmas and theorems *)

(** ** Collecting without duplicates *)

Lemma filter_all {A} (P : A → Prop) `{∀ x, Decision (P x)} (l : list A) :
  (∀ x, x ∈ l → P x) → filter P l = l.
Proof.
  induction l as [| x l IH]; intros HP; [done |].
  rewrite filter_cons_True by (apply HP; left).
  f_equal. apply IH. intros y Hy. apply HP. by right.
Qed.

(** The loop leaves the elements whose key was not seen before, the first
    of each key, after what was collected already. *)
Lemma foldl_add_unseen {A} (key : A → string) (l : list A) acc :
  (foldl (add_unseen key) acc l).2
  = acc.2 ++ filter (λ y, key y ∉ acc.1) (first_by key l).
Proof.
  revert acc. induction l as [| x l IH]; intros [seen out]; simpl.
  - by rewrite app_nil_r.
  - rewrite IH. unfold add_unseen. simpl. case_bool_decide as Hx; simpl.
    + f_equal. rewrite filter_cons_False by (simpl; tauto).
      rewrite list_filter_filter. apply list_filter_iff.
      intros y. split; [| tauto]. intros Hy. split; [done |]. congruence.
    + rewrite <- app_assoc. f_equal. simpl.
      rewrite filter_cons_True by done. f_equal.
      rewrite list_filter_filter. apply list_filter_iff.
      intros y. rewrite not_elem_of_union, not_elem_of_singleton. tauto.
Qed.

Lemma foldl_add_unseen_empty {A} (key : A → string) (l : list A) :
  (foldl (add_unseen key) (∅, []) l).2 = first_by key l.
Proof. rewrite foldl_add_unseen. simpl. apply filter_all. set_solver. Qed.

Lemma elem_of_first_by {A} (key : A → string) (l : list A) i :
  i ∈ key <$> first_by key l ↔ i ∈ key <$> l.
Proof.
  induction l as [| x l IH]; simpl; [done |].
  rewrite !elem_of_cons, <- IH, !list_elem_of_fmap.
  split.
  - intros [-> | (y & -> & Hy)]; [by left |].
    apply list_elem_of_filter in Hy as [_ Hy]. right. eauto.
  - intros [-> | (y & -> & Hy)]; [by left |].
    destruct (decide (key y = key x)) as [E | NE]; [by left |].
    right. exists y. split; [done |]. by apply list_elem_of_filter.
Qed.

Lemma first_by_NoDup {A} (key : A → string) (l : list A) :
  NoDup (key <$> l) → first_by key l = l.
Proof.
  induction l as [| x l IH]; simpl; [done |].
  rewrite NoDup_cons. intros [Hx Hl]. f_equal.
  rewrite IH by done. apply filter_all.
  intros y Hy E. apply Hx. rewrite <- E. by apply list_elem_of_fmap_2.
Qed.

Lemma first_by_app {A} (key : A → string) (l1 l2 : list A) :
  first_by key (l1 ++ l2)
  = first_by key l1 ++ filter (λ y, key y ∉ key <$> l1) (first_by key l2).
Proof.
  induction l1 as [| x l1 IH]; simpl.
  - symmetry. apply filter_all. intros y _. apply not_elem_of_nil.
  - f_equal. rewrite IH, filter_app. f_equal.
    rewrite list_filter_filter. apply list_filter_iff.
    intros y. rewrite not_elem_of_cons. tauto.
Qed.

(** ** The traversal engine *)

Module Traversal_facts.
Import Traversal.

(** *** Assembly: the node set *)

Lemma seen_ok_add (acc : gset string * list Node) (n : Node) :
  seen_ok acc → node_id n ∉ acc.1 →
  seen_ok ({[node_id n]} ∪ acc.1, acc.2 ++ [n]).
Proof.
  intros [Hnd Hin] Hfresh. split; simpl.
  - rewrite fmap_app. apply NoDup_app. split_and!; [done | | apply NoDup_singleton].
    intros i Hi. simpl. rewrite list_elem_of_singleton. intros ->.
    apply Hfresh, Hin, Hi.
  - intros i. rewrite fmap_app, elem_of_app, elem_of_union, elem_of_singleton.
    simpl. rewrite list_elem_of_singleton, Hin. tauto.
Qed.

Lemma seed_entry_ok acc en : seen_ok acc → seen_ok (seed_entry acc en).
Proof.
  intros Hok. unfold seed_entry, add_unseen. case_bool_decide; [done |].
  by apply seen_ok_add.
Qed.

Lemma add_endpoint_ok row acc s : seen_ok acc → seen_ok (add_endpoint row acc s).
Proof.
  intros Hok. unfold add_endpoint.
  destruct (col_get (side_id row s)) as [i|]; [| done].
  destruct (truthy_str (Some i)); simpl; [| done].
  case_bool_decide; simpl; [done |].
  by apply (seen_ok_add acc (mkNode i _ _ _)).
Qed.

Lemma add_endpoint_extends row acc s :
  ∃ new, (add_endpoint row acc s).2 = acc.2 ++ new
         ∧ ∀ i, i ∈ acc.1 → i ∈ (add_endpoint row acc s).1.
Proof.
  unfold add_endpoint.
  destruct (col_get (side_id row s)) as [i|]; [| exists []; by rewrite app_nil_r].
  destruct (truthy_str (Some i) && negb (bool_decide (i ∈ acc.1))); simpl.
  - eexists. split; [done |]. set_solver.
  - exists []. by rewrite app_nil_r.
Qed.

Lemma add_row_ok acc row : seen_ok acc.1 → seen_ok (add_row acc row).1.
Proof. intros Hok. simpl. by do 2 apply add_endpoint_ok. Qed.

Lemma add_row_extends acc row :
  ∃ new, (add_row acc row).1.2 = acc.1.2 ++ new.
Proof.
  simpl.
  destruct (add_endpoint_extends row acc.1 SideSource) as (n1 & E1 & _).
  destruct (add_endpoint_extends row (add_endpoint row acc.1 SideSource) SideTarget)
    as (n2 & E2 & _).
  exists (n1 ++ n2). by rewrite E2, E1, app_assoc.
Qed.

Lemma rows_ok rows acc : seen_ok acc.1 → seen_ok (foldl add_row acc rows).1.
Proof.
  revert acc. induction rows as [| row rows IH]; intros acc Hok; simpl; [done |].
  by apply IH, add_row_ok.
Qed.

Lemma rows_extend rows acc :
  ∃ new, (foldl add_row acc rows).1.2 = acc.1.2 ++ new.
Proof.
  revert acc. induction rows as [| row rows IH]; intros acc; simpl.
  - exists []. by rewrite app_nil_r.
  - destruct (IH (add_row acc row)) as [n2 E2].
    destruct (add_row_extends acc row) as [n1 E1].
    exists (n1 ++ n2). by rewrite E2, E1, app_assoc.
Qed.

Lemma build_subgraph_nodes rows entry_nodes :
  NoDup (node_id <$> nodes (_build_subgraph rows entry_nodes))
  ∧ (∀ en, en ∈ entry_nodes →
       node_id en ∈ node_id <$> nodes (_build_subgraph rows entry_nodes))
  ∧ ∃ found, nodes (_build_subgraph rows entry_nodes)
             = first_by node_id entry_nodes ++ found.
Proof.
  unfold _build_subgraph.
  pose proof (rows_ok rows (foldl seed_entry (∅, []) entry_nodes, [])) as Hok.
  pose proof (rows_extend rows (foldl seed_entry (∅, []) entry_nodes, [])) as [new Hnew].
  destruct (foldl add_row _ rows) as [[seen ns] rels]. simpl in *.
  assert (Hseed : (foldl seed_entry (∅, []) entry_nodes).2 = first_by node_id entry_nodes)
    by apply foldl_add_unseen_empty.
  rewrite Hseed in Hnew. subst ns.
  split_and!.
  - apply Hok. clear. induction entry_nodes as [| n l IH] using rev_ind.
    + split; [constructor | set_solver].
    + rewrite foldl_app. simpl. by apply seed_entry_ok.
  - intros en Hen. rewrite fmap_app, elem_of_app. left.
    apply elem_of_first_by. by apply list_elem_of_fmap_2.
  - by exists new.
Qed.

(** With no row, the node set is the deduplicated entry nodes. *)
Lemma build_subgraph_no_rows entry_nodes :
  nodes (_build_subgraph [] entry_nodes) = first_by node_id entry_nodes.
Proof.
  unfold _build_subgraph. simpl.
  pose proof (foldl_add_unseen_empty node_id entry_nodes) as H.
  unfold seed_entry. by destruct (foldl _ _ entry_nodes) as [seen ns].
Qed.

(** *** Assembly: the relationship list *)

Lemma rows_edges rows acc :
  (foldl add_row acc rows).2 = acc.2 ++ omap row_edge rows.
Proof.
  revert acc. induction rows as [| row rows IH]; intros acc; simpl.
  - by rewrite app_nil_r.
  - rewrite IH. simpl. destruct (row_edge row); simpl; [| done].
    by rewrite <- app_assoc.
Qed.

Lemma build_subgraph_edges rows entry_nodes :
  relationships (_build_subgraph rows entry_nodes) = omap row_edge rows.
Proof.
  unfold _build_subgraph.
  pose proof (rows_edges rows (foldl seed_entry (∅, []) entry_nodes, [])) as H.
  destruct (foldl add_row _ rows) as [[seen ns] rels]. by simpl in *.
Qed.

Lemma row_edge_is_Some row : is_Some (row_edge row) ↔ has_endpoints row = true.
Proof.
  unfold row_edge, has_endpoints.
  destruct (col_get (source_id row)) as [s|], (col_get (target_id row)) as [t|];
    simpl; try (split; [intros [? ?]; discriminate | discriminate]).
  - destruct (negb (String.eqb s "") && negb (String.eqb t "")); simpl.
    + split; [done | eauto].
    + split; [intros [? ?]; discriminate | discriminate].
  - destruct (negb (String.eqb s "")); simpl;
      (split; [intros [? ?]; discriminate | discriminate]).
Qed.

Lemma omap_all_Some {A B} (f : A → option B) (l : list A) :
  Forall (λ x, is_Some (f x)) l → length (omap f l) = length l.
Proof.
  induction 1 as [| x l [y Hy] _ IH]; simpl; [done |].
  rewrite Hy. simpl. f_equal. exact IH.
Qed.

(** *** Facts about calls *)

Section engine_facts.

Context {Store : Type}.
Variable execute_query : Query → Store → (string + list Row) * Store.

(** [traverse] past the dispatch, for a registered pattern that is a
    non-empty dict whose strategy is a string. *)
Lemma traverse_registered entry_nodes intent self pattern s :
  entry_nodes ≠ [] →
  _intent_patterns self !! intent = Some (VDict pattern) →
  pattern !! "strategy" = Some (VStr s) →
  traverse execute_query entry_nodes intent self =
    match default (_general execute_query) (dispatch execute_query s)
            (node_id <$> entry_nodes) pattern self with
    | (inl e, self', tr) => (inl e, self', EvLookup intent :: tr)
    | (inr res, self', tr) =>
        (inr {| nodes := nodes (_build_subgraph res.1 entry_nodes);
                relationships := relationships (_build_subgraph res.1 entry_nodes);
                strategy := Some (VStr s);
                hop_depth := Some res.2 |},
         self', EvLookup intent :: tr)
    end.
Proof.
  intros Hne Hreg Hs.
  assert (Hset : negb (bool_decide (pattern = ∅)) = true).
  { apply negb_true_iff, bool_decide_eq_false. intros ->.
    by rewrite lookup_empty in Hs. }
  destruct entry_nodes as [| n l]; [done |].
  unfold traverse, bind, registry_get, lift, ret. rewrite Hreg. simpl.
  rewrite Hset. unfold dict_get. rewrite Hs. simpl.
  destruct (default (_general execute_query) (dispatch execute_query s) _ pattern self)
    as [[[e | res] self'] tr]; [done |].
  by rewrite app_nil_r.
Qed.

(** A call that returns a subgraph assembled it from some rows. *)
Lemma traverse_returns entry_nodes intent self sg self' tr :
  traverse execute_query entry_nodes intent self = (inr sg, self', tr) →
  (entry_nodes = [] ∧ sg = empty_subgraph)
  ∨ ∃ rows, nodes sg = nodes (_build_subgraph rows entry_nodes)
            ∧ relationships sg = relationships (_build_subgraph rows entry_nodes).
Proof.
  destruct entry_nodes as [| n l].
  - intros [= <- <- <-]. by left.
  - intros H. right. unfold traverse, bind, registry_get, lift, ret in H.
    simpl in H.
    destruct (if is_set _ then _ else _) as [e | strat]; [done |].
    destruct (dispatch_get _ strat) as [e | fn]; [done |]. simpl in H.
    destruct (fn _ _ self) as [[[e | res] self1] tr1]; [done |].
    injection H as <- <- <-. by exists res.1.
Qed.

(** What [_variable_hop] does, in one step. *)
Lemma variable_hop_run entry_ids pattern self :
  _variable_hop execute_query entry_ids pattern self =
    let max_h := default (VInt 2) (pattern !! "max_hops") in
    let q := mkQuery (CyVariableHop (default (VInt 1) (pattern !! "min_hops")) max_h)
                     entry_ids None in
    match execute_query q (connector self) with
    | (inl msg, store) => (inl (StoreError msg), with_store self store, [EvQuery q])
    | (inr rows, store) => (inr (rows, max_h), with_store self store, [EvQuery q])
    end.
Proof.
  unfold _variable_hop, bind, run_query, ret, dict_get, with_store. simpl.
  destruct (pattern !! "min_hops"), (pattern !! "max_hops"); simpl;
    by destruct (execute_query _ _) as [[msg | rows] store].
Qed.

Lemma shared_neighbor_run entry_ids pattern self v :
  min_int (dict_get pattern "min_connections" (VInt 2))
          (Z.of_nat (length entry_ids)) = inr v →
  _shared_neighbor execute_query entry_ids pattern self =
    let q := mkQuery CySharedNeighbor entry_ids (Some v) in
    match execute_query q (connector self) with
    | (inl msg, store) => (inl (StoreError msg), with_store self store, [EvQuery q])
    | (inr rows, store) => (inr (rows, VInt 1), with_store self store, [EvQuery q])
    end.
Proof.
  intros Hv. unfold _shared_neighbor, bind, lift, run_query, ret, with_store.
  rewrite Hv. simpl. by destruct (execute_query _ _) as [[msg | rows] store].
Qed.

Lemma min_int_as_int v n c :
  as_int v = Some c → ∃ w, min_int v n = inr w ∧ as_int w = Some (c `min` n)%Z.
Proof.
  intros Hc. unfold min_int. rewrite Hc.
  destruct (Z.ltb_spec n c) as [Hlt | Hge]; eexists; (split; [done |]).
  - simpl. f_equal. lia.
  - rewrite Hc. f_equal. lia.
Qed.

(** A configured [min_connections] that is not a number makes [min]
    raise before any query is issued. *)
Lemma shared_neighbor_type_error entry_ids pattern self :
  as_int (dict_get pattern "min_connections" (VInt 2)) = None →
  _shared_neighbor execute_query entry_ids pattern self = (inl TypeError, self, []).
Proof.
  intros Hc. unfold _shared_neighbor, bind, lift, min_int. by rewrite Hc.
Qed.

(** An intent that is not registered is served by the general strategy. *)
Lemma traverse_unknown_intent entry_nodes intent self :
  entry_nodes ≠ [] →
  _intent_patterns self !! intent = None →
  trace (traverse execute_query entry_nodes intent self)
  = [EvLookup intent;
     EvQuery (mkQuery (CyGeneral (_general_limit self)) (node_id <$> entry_nodes) None)].
Proof.
  intros Hne Hreg. destruct entry_nodes as [| n l]; [done |].
  unfold traverse. set (ids := node_id <$> n :: l).
  unfold bind, registry_get, lift, ret. rewrite Hreg. simpl.
  unfold _general, bind, get, run_query, ret. simpl.
  by destruct (execute_query _ (connector self)) as [[msg | rows] store].
Qed.

End engine_facts.

(** *** The claims on the traversal engine *)

Section claims.

Context {Store : Type}.
Variable execute_query : Query → Store → (string + list Row) * Store.

(** C1. Whenever [traverse] returns a subgraph, its node ids are pairwise
    distinct, the id of every entry node is among them, and the node list
    starts with the entry nodes in the order given (the first node of
    each id), whatever rows the store returned. *)
Theorem traverse_node_set entry_nodes intent (self : SmartTraversalEngine Store)
    sg self' tr :
  traverse execute_query entry_nodes intent self = (inr sg, self', tr) →
  NoDup (node_id <$> nodes sg)
  ∧ (∀ en, en ∈ entry_nodes → node_id en ∈ node_id <$> nodes sg)
  ∧ ∃ found, nodes sg = first_by node_id entry_nodes ++ found.
Proof.
  intros H. apply traverse_returns in H as [[-> ->] | (rows & -> & _)].
  - simpl. split_and!; [constructor | set_solver | by exists []].
  - apply build_subgraph_nodes.
Qed.

(** C2. With no entry node, [traverse] returns the canonical empty
    subgraph for every intent, and its trace is empty: no registry lookup
    and no store query; the engine is left as it was. *)
Theorem traverse_no_entry_nodes intent (self : SmartTraversalEngine Store) :
  traverse execute_query [] intent self
  = (inr {| nodes := []; relationships := [];
            strategy := Some (VStr "none"); hop_depth := Some (VInt 0) |},
     self, []).
Proof. reflexivity. Qed.

(** C3. With fewer than two entry ids, [_shortest_path] does what
    [_variable_hop] does on [{"min_hops": 1, "max_hops": max_h}], where
    [max_h] is the pattern's [max_hops] or 6: the only query it issues is
    the variable-hop one with these bounds, and none of its queries is a
    shortest-path query.  So does a [traverse] call with one entry node
    whose intent is registered with the [shortest_path] strategy. *)
Theorem shortest_path_degrades entry_ids pattern (self : SmartTraversalEngine Store) :
  (length entry_ids < 2)%nat →
  let max_h := default (VInt 6) (pattern !! "max_hops") in
  let q := mkQuery (CyVariableHop (VInt 1) max_h) entry_ids None in
  _shortest_path execute_query entry_ids pattern self
  = _variable_hop execute_query entry_ids
      (<["min_hops" := VInt 1]> (<["max_hops" := max_h]> ∅)) self
  ∧ trace (_shortest_path execute_query entry_ids pattern self) = [EvQuery q]
  ∧ (∀ q' m,
       EvQuery q' ∈ trace (_shortest_path execute_query entry_ids pattern self) →
       q_cypher q' ≠ CyShortestPath m)
  ∧ (∀ entry_nodes intent,
       node_id <$> entry_nodes = entry_ids →
       entry_nodes ≠ [] →
       _intent_patterns self !! intent = Some (VDict pattern) →
       pattern !! "strategy" = Some (VStr "shortest_path") →
       trace (traverse execute_query entry_nodes intent self)
       = [EvLookup intent; EvQuery q]).
Proof.
  intros Hlen max_h q.
  assert (Hvar : _shortest_path execute_query entry_ids pattern self
                 = _variable_hop execute_query entry_ids
                     (<["min_hops" := VInt 1]> (<["max_hops" := max_h]> ∅)) self).
  { unfold _shortest_path.
    replace (Z.of_nat (length entry_ids) <? 2)%Z with true
      by (symmetry; apply Z.ltb_lt; lia).
    subst max_h. unfold dict_get. by destruct (pattern !! "max_hops"). }
  assert (Hrun : trace (_shortest_path execute_query entry_ids pattern self)
                 = [EvQuery q]).
  { rewrite Hvar, variable_hop_run. rewrite lookup_insert_eq.
    rewrite lookup_insert_ne by done. rewrite lookup_insert_eq. simpl.
    subst q max_h. unfold dict_get.
    by destruct (execute_query _ (connector self)) as [[msg | rows] store]. }
  split_and!.
  - exact Hvar.
  - exact Hrun.
  - intros q' m. rewrite Hrun, list_elem_of_singleton. by intros [= ->].
  - intros entry_nodes intent Hids Hne Hreg Hs.
    rewrite (traverse_registered _ _ _ _ _ _ Hne Hreg Hs). simpl. rewrite Hids.
    unfold trace in Hrun.
    destruct (_shortest_path execute_query entry_ids pattern self)
      as [[[e | res] self'] tr]; simpl in *; by rewrite Hrun.
Qed.

(** C5 (amended). The relationship list holds one edge for each row that
    carries both a source id and a target id, in row order, and nothing
    else; edges are not deduplicated, so when every row has both ids
    there are as many edges as rows. *)
Theorem build_subgraph_relationships rows entry_nodes :
  relationships (_build_subgraph rows entry_nodes) = omap row_edge rows
  ∧ (∀ row, is_Some (row_edge row) ↔ has_endpoints row = true)
  ∧ (Forall (λ row, has_endpoints row = true) rows →
     length (relationships (_build_subgraph rows entry_nodes)) = length rows).
Proof.
  split_and!.
  - apply build_subgraph_edges.
  - apply row_edge_is_Some.
  - intros Hall. rewrite build_subgraph_edges. apply omap_all_Some.
    eapply Forall_impl; [exact Hall |]. intros row. apply row_edge_is_Some.
Qed.

(** C6 (amended). A [traverse] call with at least one entry node whose
    intent is registered with a [chained] pattern without hop list raises
    [KeyError "hops"]; it issues no query and leaves the engine (registry,
    node limit, store) as it was, so that any later call behaves as if
    the failed one had not been made. *)
Theorem chained_without_hops_fails entry_nodes intent
    (self : SmartTraversalEngine Store) pattern :
  entry_nodes ≠ [] →
  _intent_patterns self !! intent = Some (VDict pattern) →
  pattern !! "strategy" = Some (VStr "chained") →
  pattern !! "hops" = None →
  outcome (traverse execute_query entry_nodes intent self) = inl (KeyError "hops")
  ∧ self_after (traverse execute_query entry_nodes intent self) = self
  ∧ trace (traverse execute_query entry_nodes intent self) = [EvLookup intent]
  ∧ ∀ entry_nodes' intent',
      traverse execute_query entry_nodes' intent'
        (self_after (traverse execute_query entry_nodes intent self))
      = traverse execute_query entry_nodes' intent' self.
Proof.
  intros Hne Hreg Hs Hhops.
  assert (E : traverse execute_query entry_nodes intent self
              = (inl (KeyError "hops"), self, [EvLookup intent])).
  { rewrite (traverse_registered _ _ _ _ _ _ Hne Hreg Hs). simpl.
    unfold _chained, bind, lift, dict_item. by rewrite Hhops. }
  rewrite E. by split_and!.
Qed.

(** C8. The [min_conn] parameter of the query [_shared_neighbor] issues
    is, as a number, the minimum of the configured [min_connections] (2
    when the pattern has none) and the number of entry ids; the same holds
    of the query of a [traverse] call dispatched to this strategy. *)
Theorem shared_neighbor_min_conn entry_ids pattern (self : SmartTraversalEngine Store) c :
  as_int (default (VInt 2) (pattern !! "min_connections")) = Some c →
  ∃ v,
    as_int v = Some (c `min` Z.of_nat (length entry_ids))%Z
    ∧ trace (_shared_neighbor execute_query entry_ids pattern self)
      = [EvQuery (mkQuery CySharedNeighbor entry_ids (Some v))]
    ∧ (∀ entry_nodes intent,
         node_id <$> entry_nodes = entry_ids →
         entry_nodes ≠ [] →
         _intent_patterns self !! intent = Some (VDict pattern) →
         pattern !! "strategy" = Some (VStr "shared_neighbor") →
         trace (traverse execute_query entry_nodes intent self)
         = [EvLookup intent; EvQuery (mkQuery CySharedNeighbor entry_ids (Some v))]).
Proof.
  intros Hc.
  destruct (min_int_as_int (dict_get pattern "min_connections" (VInt 2))
              (Z.of_nat (length entry_ids)) c) as (v & Hv & Hmin).
  { unfold dict_get. by destruct (pattern !! "min_connections"). }
  exists v.
  assert (Hrun : trace (_shared_neighbor execute_query entry_ids pattern self)
                 = [EvQuery (mkQuery CySharedNeighbor entry_ids (Some v))]).
  { rewrite (shared_neighbor_run _ _ _ _ _ Hv). simpl.
    by destruct (execute_query _ _) as [[msg | rows] store]. }
  split_and!; [done | done |].
  intros entry_nodes intent Hids Hne Hreg Hs.
  rewrite (traverse_registered _ _ _ _ _ _ Hne Hreg Hs). simpl. rewrite Hids.
  unfold trace in Hrun.
  destruct (_shared_neighbor execute_query entry_ids pattern self)
    as [[[e | res] self'] tr]; simpl in *; by rewrite Hrun.
Qed.

(** C10. [_variable_hop] raises no configuration error: it issues one
    query whose bounds are the pattern's [min_hops] and [max_hops], 1 and
    2 standing in for a missing one, and unless the store fails it returns
    the rows with the upper bound as hop depth.  A [traverse] call
    dispatched to it reports that hop depth. *)
Theorem variable_hop_defaults entry_ids pattern (self : SmartTraversalEngine Store) :
  let min_h := default (VInt 1) (pattern !! "min_hops") in
  let max_h := default (VInt 2) (pattern !! "max_hops") in
  let q := mkQuery (CyVariableHop min_h max_h) entry_ids None in
  trace (_variable_hop execute_query entry_ids pattern self) = [EvQuery q]
  ∧ outcome (_variable_hop execute_query entry_ids pattern self)
    = match (execute_query q (connector self)).1 with
      | inl msg => inl (StoreError msg)
      | inr rows => inr (rows, max_h)
      end
  ∧ (∀ entry_nodes intent,
       node_id <$> entry_nodes = entry_ids →
       entry_nodes ≠ [] →
       _intent_patterns self !! intent = Some (VDict pattern) →
       pattern !! "strategy" = Some (VStr "variable_hop") →
       trace (traverse execute_query entry_nodes intent self)
       = [EvLookup intent; EvQuery q]
       ∧ outcome (traverse execute_query entry_nodes intent self)
         = match (execute_query q (connector self)).1 with
           | inl msg => inl (StoreError msg)
           | inr rows =>
               inr {| nodes := nodes (_build_subgraph rows entry_nodes);
                      relationships := relationships (_build_subgraph rows entry_nodes);
                      strategy := Some (VStr "variable_hop");
                      hop_depth := Some max_h |}
           end).
Proof.
  intros min_h max_h q. split_and!.
  - rewrite variable_hop_run. subst min_h max_h q. simpl.
    by destruct (execute_query _ (connector self)) as [[msg | rows] store].
  - rewrite variable_hop_run. subst min_h max_h q. simpl.
    by destruct (execute_query _ (connector self)) as [[msg | rows] store].
  - intros entry_nodes intent Hids Hne Hreg Hs.
    rewrite (traverse_registered _ _ _ _ _ _ Hne Hreg Hs). simpl. rewrite Hids.
    rewrite variable_hop_run. subst min_h max_h q. simpl.
    by destruct (execute_query _ (connector self)) as [[msg | rows] store].
Qed.

End claims.

(** *** The claims at the sample engine *)

Lemma traverse_node_set_witness :
  traverse one_edge_store [aspirin; aspirin] "side_effects" sample_engine
  = (inr {| nodes := [aspirin; nausea]; relationships := [causes_edge];
            strategy := Some (VStr "targeted"); hop_depth := Some (VInt 1) |},
     sample_engine,
     [EvLookup "side_effects";
      EvQuery (mkQuery (CyTargeted None (VStr "CAUSES") None AnchorSource)
                       ["id:1"; "id:1"]%string None)])
  ∧ NoDup (node_id <$> [aspirin; nausea])
  ∧ (∀ en, en ∈ [aspirin; aspirin] → node_id en ∈ node_id <$> [aspirin; nausea])
  ∧ ∃ found, [aspirin; nausea] = first_by node_id [aspirin; aspirin] ++ found.
Proof.
  assert (H : traverse one_edge_store [aspirin; aspirin] "side_effects" sample_engine
    = (inr {| nodes := [aspirin; nausea]; relationships := [causes_edge];
              strategy := Some (VStr "targeted"); hop_depth := Some (VInt 1) |},
       sample_engine,
       [EvLookup "side_effects";
        EvQuery (mkQuery (CyTargeted None (VStr "CAUSES") None AnchorSource)
                         ["id:1"; "id:1"]%string None)]))
    by (vm_compute; reflexivity).
  split; [exact H |].
  exact (traverse_node_set one_edge_store _ _ _ _ _ _ H).
Defined.

Lemma shortest_path_degrades_witness :
  (length ["id:1"%string] < 2)%nat
  ∧ trace (_shortest_path one_edge_store ["id:1"%string] ∅ sample_engine)
    = [EvQuery (mkQuery (CyVariableHop (VInt 1) (VInt 6)) ["id:1"%string] None)].
Proof.
  assert (H : (length ["id:1"%string] < 2)%nat) by (simpl; lia).
  split; [exact H |].
  exact (proj1 (proj2 (shortest_path_degrades one_edge_store ["id:1"%string] ∅
                         sample_engine H))).
Defined.

(** C5, as stated, fails: a row without target id contributes no edge. *)
Lemma one_edge_per_row_fails :
  ¬ (∀ rows entry_nodes,
       length (relationships (_build_subgraph rows entry_nodes)) = length rows).
Proof. intros H. specialize (H [dangling_row] []). vm_compute in H. discriminate. Qed.

(** Two rows for the same triple give two edges. *)
Lemma build_subgraph_relationships_witness :
  Forall (λ row, has_endpoints row = true) [causes_nausea; causes_nausea]
  ∧ length (relationships (_build_subgraph [causes_nausea; causes_nausea] [aspirin]))
    = length [causes_nausea; causes_nausea].
Proof.
  assert (H : Forall (λ row, has_endpoints row = true) [causes_nausea; causes_nausea])
    by (repeat constructor).
  split; [exact H |].
  exact (proj2 (proj2 (build_subgraph_relationships
                         [causes_nausea; causes_nausea] [aspirin])) H).
Defined.

(** C6, as stated, fails: with no entry node the call returns the empty
    subgraph even though the intent is registered with a chained pattern
    that has no hop list. *)
Lemma chained_without_hops_no_entry_nodes :
  ¬ (∀ entry_nodes intent (self : SmartTraversalEngine unit) pattern,
       _intent_patterns self !! intent = Some (VDict pattern) →
       pattern !! "strategy" = Some (VStr "chained") →
       pattern !! "hops" = None →
       ∃ e, outcome (traverse one_edge_store entry_nodes intent self) = inl e).
Proof.
  intros H.
  destruct (H [] "indirect_symptoms"%string sample_engine
              {[ "strategy"%string := VStr "chained" ]}) as [e He];
    [reflexivity | reflexivity | reflexivity |].
  discriminate He.
Qed.

Lemma chained_without_hops_fails_witness :
  [aspirin] ≠ []
  ∧ _intent_patterns sample_engine !! "indirect_symptoms"
    = Some (VDict {[ "strategy"%string := VStr "chained" ]})
  ∧ ({[ "strategy"%string := VStr "chained" ]} : gmap string value) !! "strategy"
    = Some (VStr "chained")
  ∧ ({[ "strategy"%string := VStr "chained" ]} : gmap string value) !! "hops" = None
  ∧ outcome (traverse one_edge_store [aspirin] "indirect_symptoms" sample_engine)
    = inl (KeyError "hops").
Proof.
  assert (H1 : [aspirin] ≠ []) by discriminate.
  assert (H2 : _intent_patterns sample_engine !! "indirect_symptoms"
               = Some (VDict {[ "strategy"%string := VStr "chained" ]}))
    by reflexivity.
  assert (H3 : ({[ "strategy"%string := VStr "chained" ]} : gmap string value)
                 !! "strategy" = Some (VStr "chained")) by reflexivity.
  assert (H4 : ({[ "strategy"%string := VStr "chained" ]} : gmap string value)
                 !! "hops" = None) by reflexivity.
  split_and!; [exact H1 | exact H2 | exact H3 | exact H4 |].
  exact (proj1 (chained_without_hops_fails one_edge_store _ _ _ _ H1 H2 H3 H4)).
Defined.

Lemma shared_neighbor_min_conn_witness :
  as_int (default (VInt 2) ((∅ : gmap string value) !! "min_connections")) = Some 2%Z
  ∧ ∃ v, as_int v = Some (2 `min` 1)%Z
         ∧ trace (_shared_neighbor one_edge_store ["id:1"%string] ∅ sample_engine)
           = [EvQuery (mkQuery CySharedNeighbor ["id:1"%string] (Some v))].
Proof.
  assert (H : as_int (default (VInt 2) ((∅ : gmap string value) !! "min_connections"))
              = Some 2%Z) by reflexivity.
  split; [exact H |].
  destruct (shared_neighbor_min_conn one_edge_store ["id:1"%string] ∅ sample_engine 2%Z H)
    as (v & Hv & Htr & _).
  exists v. split; [exact Hv | exact Htr].
Defined.

Lemma variable_hop_defaults_witness :
  node_id <$> [aspirin] = ["id:1"%string]
  ∧ [aspirin] ≠ []
  ∧ _intent_patterns sample_engine !! "neighborhood"
    = Some (VDict {[ "strategy"%string := VStr "variable_hop" ]})
  ∧ trace (traverse one_edge_store [aspirin] "neighborhood" sample_engine)
    = [EvLookup "neighborhood";
       EvQuery (mkQuery (CyVariableHop (VInt 1) (VInt 2)) ["id:1"%string] None)]
  ∧ outcome (traverse one_edge_store [aspirin] "neighborhood" sample_engine)
    = inr {| nodes := [aspirin; nausea]; relationships := [causes_edge];
             strategy := Some (VStr "variable_hop"); hop_depth := Some (VInt 2) |}.
Proof.
  assert (H1 : node_id <$> [aspirin] = ["id:1"%string]) by reflexivity.
  assert (H2 : [aspirin] ≠ []) by discriminate.
  assert (H3 : _intent_patterns sample_engine !! "neighborhood"
               = Some (VDict {[ "strategy"%string := VStr "variable_hop" ]}))
    by reflexivity.
  split_and!; [exact H1 | exact H2 | exact H3 | |].
  - exact (proj1 (proj2 (proj2 (variable_hop_defaults one_edge_store ["id:1"%string]
             {[ "strategy"%string := VStr "variable_hop" ]} sample_engine))
             [aspirin] "neighborhood"%string H1 H2 H3 eq_refl)).
  - exact (proj2 (proj2 (proj2 (variable_hop_defaults one_edge_store ["id:1"%string]
             {[ "strategy"%string := VStr "variable_hop" ]} sample_engine))
             [aspirin] "neighborhood"%string H1 H2 H3 eq_refl)).
Defined.

End Traversal_facts.

(** ** The entity extractor *)

Module Extractor_facts.
Import Extractor.

(** *** Tokens *)

Lemma word_char_not_space c : is_word_char c = true → is_space (lower_char c) = false.
Proof. destruct c as [[] [] [] [] [] [] [] []]; vm_compute; congruence. Qed.

Lemma space_is_space : is_space " "%char = true.
Proof. reflexivity. Qed.

(** Every token is a non-empty run of characters that are not spaces. *)
Lemma split_from_tokens cur s :
  Forall (λ c, is_space c = false) cur →
  Forall (λ t, t ≠ [] ∧ Forall (λ c, is_space c = false) t) (split_from cur s).
Proof.
  revert cur. induction s as [| c s IH]; intros cur Hcur; simpl.
  - destruct cur as [| c' cur']; [constructor |].
    constructor; [| constructor]. split.
    + intros E. apply (f_equal length) in E. rewrite length_reverse in E. done.
    + by apply Forall_reverse.
  - destruct (is_space c) eqn:Hc.
    + destruct cur as [| c' cur']; [by apply IH |].
      constructor; [| by apply IH]. split.
      * intros E. apply (f_equal length) in E. rewrite length_reverse in E. done.
      * by apply Forall_reverse.
    + apply IH. by constructor.
Qed.

Lemma split_from_nonempty cur s :
  cur ≠ [] ∨ (∃ c, c ∈ s ∧ is_space c = false) → split_from cur s ≠ [].
Proof.
  revert cur. induction s as [| c s IH]; intros cur H; simpl.
  - destruct H as [H | (c & Hc & _)]; [by destruct cur | by apply elem_of_nil in Hc].
  - destruct (is_space c) eqn:Hc.
    + destruct cur as [| c' cur']; [| done].
      apply IH. right. destruct H as [H | (c0 & Hc0 & Hs)]; [done |].
      apply elem_of_cons in Hc0 as [-> | Hc0]; [congruence | eauto].
    + apply IH. by left.
Qed.

Lemma count_spaces_app s1 s2 :
  count_spaces (s1 +:+ s2) = count_spaces s1 + count_spaces s2.
Proof.
  unfold count_spaces. induction s1 as [| c s1 IH]; simpl; [done |].
  rewrite !filter_cons. destruct (decide (c = " "%char)); simpl; by rewrite IH.
Qed.

Lemma tokenize_no_space query : Forall no_space (tokenize query).
Proof.
  unfold tokenize, split. apply Forall_fmap.
  eapply Forall_impl; [apply split_from_tokens; constructor |].
  intros t [_ Ht]. unfold no_space, count_spaces. simpl.
  rewrite String.list_ascii_of_string_of_list_ascii.
  induction Ht as [| c t Hc _ IH]; [done |].
  rewrite filter_cons_False; [done |]. intros ->. by rewrite space_is_space in Hc.
Qed.

Lemma content_tokens_subseteq stop_words query :
  content_tokens stop_words query ⊆ tokenize query.
Proof.
  unfold content_tokens.
  pose proof (list_subseteq_filter (λ t, t ∉ stop_words) (tokenize query)) as H.
  by destruct (filter _ (tokenize query)).
Qed.

Lemma content_tokens_no_space stop_words query :
  Forall no_space (content_tokens stop_words query).
Proof.
  apply Forall_forall. intros t Ht.
  pose proof (tokenize_no_space query) as H. rewrite Forall_forall in H.
  apply H. by apply (content_tokens_subseteq stop_words).
Qed.

Lemma tokenize_nonempty query c :
  c ∈ String.list_ascii_of_string query → is_word_char c = true → tokenize query ≠ [].
Proof.
  intros Hc Hw. unfold tokenize, split. intros E. apply fmap_nil_inv in E.
  revert E. apply split_from_nonempty. right.
  exists (lower_char c). split; [| by apply word_char_not_space].
  apply list_elem_of_fmap. exists c. split; [done |].
  unfold clean. apply list_elem_of_fmap. exists c. by rewrite Hw.
Qed.

Lemma content_tokens_nonempty stop_words query :
  tokenize query ≠ [] → content_tokens stop_words query ≠ [].
Proof. unfold content_tokens. by destruct (filter _ (tokenize query)). Qed.

(** *** N-grams *)

Lemma range_length (len n : nat) :
  range (Z.of_nat len - Z.of_nat n + 1) = seq 0 (len + 1 - n).
Proof. unfold range. f_equal. lia. Qed.

(** The slices the inner loop reads are the n-grams, in order. *)
Lemma slices_ngrams {A} (n : nat) (l : list A) :
  0 < n →
  (λ i, take n (drop i l)) <$> range (Z.of_nat (length l) - Z.of_nat n + 1)
  = ngrams n l.
Proof.
  intros Hn. rewrite range_length. induction l as [| x l IH].
  - simpl. by replace (1 - n) with 0 by lia.
  - cbn [ngrams length]. case_bool_decide as Hlen.
    + replace (S (length l) + 1 - n) with (S (length l + 1 - n)) by lia.
      cbn [seq fmap list_fmap drop app]. f_equal.
      rewrite <- IH, <- fmap_S_seq, <- list_fmap_compose.
      by apply list_fmap_ext.
    + replace (S (length l) + 1 - n) with 0 by lia.
      rewrite <- IH. by replace (length l + 1 - n) with 0 by lia.
Qed.

Lemma ngrams_length {A} (n : nat) (l : list A) g : g ∈ ngrams n l → length g = n.
Proof.
  induction l as [| x l IH]; simpl; [by intros ?%elem_of_nil |].
  rewrite elem_of_app. intros [H | H]; [| by apply IH].
  case_bool_decide as Hlen; [| by apply elem_of_nil in H].
  apply list_elem_of_singleton in H as ->. rewrite length_take. simpl. lia.
Qed.

Lemma ngrams_Forall {A} (P : A → Prop) (n : nat) (l : list A) g :
  Forall P l → g ∈ ngrams n l → Forall P g.
Proof.
  intros Hl. revert g.
  induction Hl as [| x l Hx Hl IH]; intros g; simpl; [by intros ?%elem_of_nil |].
  rewrite elem_of_app. intros [H | H]; [| by apply IH].
  case_bool_decide as Hlen; [| by apply elem_of_nil in H].
  apply list_elem_of_singleton in H as ->.
  apply Forall_take. by constructor.
Qed.

Lemma elem_of_ngrams {A} (n i : nat) (l : list A) :
  0 < n → i + n ≤ length l → take n (drop i l) ∈ ngrams n l.
Proof.
  intros Hn. revert i. induction l as [| x l IH]; intros i Hi; simpl in *; [lia |].
  apply elem_of_app. destruct i as [| i]; simpl.
  - left. rewrite bool_decide_eq_true_2 by lia. by apply list_elem_of_singleton.
  - right. apply IH. lia.
Qed.

Lemma count_spaces_join l : Forall no_space l → count_spaces (join l) = length l - 1.
Proof.
  unfold join. induction 1 as [| x l Hx Hl IH]; [done |].
  destruct l as [| y l]; simpl in *; [rewrite Hx; lia |].
  rewrite !count_spaces_app, Hx, IH. change (count_spaces " ") with 1. lia.
Qed.

(** A phrase of [n] tokens has [n - 1] spaces: phrases of different sizes
    are different strings. *)
Lemma phrase_spaces (n : nat) tokens p :
  Forall no_space tokens → p ∈ join <$> ngrams n tokens → count_spaces p = n - 1.
Proof.
  intros Htok (g & -> & Hg)%list_elem_of_fmap.
  rewrite count_spaces_join by eauto using ngrams_Forall.
  by rewrite (ngrams_length _ _ _ Hg).
Qed.

(** *** The candidate loop and the wording of the specification *)

Lemma ngram_pass_ngrams tokens acc (n : nat) :
  0 < n →
  ngram_pass tokens acc n = foldl (add_unseen (λ p, p)) acc (join <$> ngrams n tokens).
Proof.
  intros Hn. unfold ngram_pass, add_phrase.
  rewrite <- (slices_ngrams n tokens Hn), <- list_fmap_compose, foldl_fmap.
  done.
Qed.

Lemma extract_keywords_spec stop_words query :
  _extract_keywords stop_words query
  = spec_candidates (content_tokens stop_words query).
Proof.
  unfold _extract_keywords, spec_candidates. simpl.
  rewrite !ngram_pass_ngrams by lia.
  rewrite <- !foldl_app, <- !fmap_app.
  apply foldl_add_unseen_empty.
Qed.

Lemma elem_of_first_by_self (l : list string) p : p ∈ first_by (λ p, p) l ↔ p ∈ l.
Proof.
  pose proof (elem_of_first_by (λ p, p) l p) as H.
  change (λ p : string, p) with (@id string) in H at 1 3.
  by rewrite !list_fmap_id in H.
Qed.

Lemma spec_candidates_nonempty tokens : tokens ≠ [] → spec_candidates tokens ≠ [].
Proof.
  destruct tokens as [| t tokens]; [done |]. intros _ E.
  assert (H : t ∈ spec_candidates (t :: tokens)).
  { apply elem_of_first_by_self. rewrite !fmap_app, !elem_of_app. right. right.
    apply list_elem_of_fmap. exists [t]. split; [done |].
    apply (elem_of_ngrams 1 0 (t :: tokens)); simpl; lia. }
  rewrite E in H. by apply elem_of_nil in H.
Qed.

(** *** Positions *)

Lemma index_elem_of x l : x ∈ l → ∃ a, index x l = Some a ∧ a < length l.
Proof.
  induction l as [| y l IH]; [by intros ?%elem_of_nil |]. simpl.
  destruct (String.eqb_spec y x) as [-> | Hne].
  - intros _. exists 0. split; [done | lia].
  - intros [-> | Hx]%elem_of_cons; [done |].
    destruct (IH Hx) as (a & -> & Ha). exists (S a). split; [done | lia].
Qed.

Lemma index_app_r x l1 l2 b :
  x ∉ l1 → index x (l1 ++ l2) = Some b → length l1 ≤ b.
Proof.
  revert b. induction l1 as [| y l1 IH]; intros b Hx; simpl; [lia |].
  apply not_elem_of_cons in Hx as [Hne Hx].
  destruct (String.eqb_spec y x) as [-> | _]; [done |].
  destruct (index x (l1 ++ l2)) as [b' |] eqn:E; simpl; [| done].
  intros [= <-]. specialize (IH b' Hx eq_refl). lia.
Qed.

Lemma index_app_l x l1 l2 : x ∈ l1 → index x (l1 ++ l2) = index x l1.
Proof.
  induction l1 as [| y l1 IH]; [by intros ?%elem_of_nil |]. simpl.
  destruct (String.eqb_spec y x) as [-> | Hne]; [done |].
  intros [-> | Hx]%elem_of_cons; [done |]. by rewrite IH.
Qed.

(** In a list deduplicated in first-seen order, what occurs in a first
    part comes before what occurs only after it. *)
Lemma first_by_order (l1 l2 : list string) x y :
  x ∈ l1 → y ∉ l1 → y ∈ l2 →
  ∃ a b, index x (first_by (λ p, p) (l1 ++ l2)) = Some a
       ∧ index y (first_by (λ p, p) (l1 ++ l2)) = Some b
       ∧ a < b.
Proof.
  intros Hx Hy1 Hy2.
  assert (Hy : y ∈ first_by (λ p, p) (l1 ++ l2)).
  { apply elem_of_first_by_self, elem_of_app. by right. }
  destruct (index_elem_of _ _ Hy) as (b & Hb & _).
  rewrite first_by_app in *.
  assert (Hx' : x ∈ first_by (λ p, p) l1) by by apply elem_of_first_by_self.
  destruct (index_elem_of _ _ Hx') as (a & Ha & Hlt).
  exists a, b. rewrite index_app_l by done. split_and!; [done | done |].
  apply index_app_r in Hb; [lia |]. by rewrite elem_of_first_by_self.
Qed.

(** *** The claims on keyword extraction *)

(** C4, as stated, fails: a query of punctuation only is neither empty
    nor blank, and has no candidate. *)
Lemma punctuation_only_query :
  ¬ (∀ stop_words query, blank query = false →
       _extract_keywords stop_words query ≠ []).
Proof. intros H. by apply (H _DEFAULT_STOP_WORDS "?"%string). Qed.

(** C4 (amended). A query with at least one letter, digit or hyphen has
    at least one candidate phrase, whatever the stop words are, and so
    even when every token is a stop word. *)
Theorem extract_keywords_nonempty stop_words query c :
  c ∈ String.list_ascii_of_string query → is_word_char c = true →
  _extract_keywords stop_words query ≠ [].
Proof.
  intros Hc Hw. rewrite extract_keywords_spec.
  eapply spec_candidates_nonempty, content_tokens_nonempty, tokenize_nonempty; eauto.
Qed.

Lemma extract_keywords_nonempty_witness :
  "w"%char ∈ String.list_ascii_of_string "what is the"
  ∧ is_word_char "w" = true
  ∧ Forall (λ t, t ∈ _DEFAULT_STOP_WORDS) (tokenize "what is the")
  ∧ _extract_keywords _DEFAULT_STOP_WORDS "what is the" ≠ [].
Proof.
  assert (H1 : "w"%char ∈ String.list_ascii_of_string "what is the") by (simpl; left).
  assert (H2 : is_word_char "w" = true) by reflexivity.
  split_and!; [exact H1 | exact H2 | |].
  - repeat constructor; by vm_compute.
  - exact (extract_keywords_nonempty _DEFAULT_STOP_WORDS "what is the" "w" H1 H2).
Defined.

(** C7. The candidates are the n-grams of sizes 3, 2 and 1 of the
    filtered tokens, in this order, with duplicates removed in first-seen
    order; and for every three consecutive tokens, the position of their
    trigram among the candidates is smaller than that of each bigram and
    unigram inside it. *)
Theorem candidates_longest_first stop_words query :
  let tokens := content_tokens stop_words query in
  let candidates := _extract_keywords stop_words query in
  candidates
  = first_by (λ p, p)
      (join <$> (ngrams 3 tokens ++ ngrams 2 tokens ++ ngrams 1 tokens))
  ∧ ∀ i n j,
      i + 3 ≤ length tokens → n = 1 ∨ n = 2 → i ≤ j → j + n ≤ i + 3 →
      ∃ a b, index (join (take 3 (drop i tokens))) candidates = Some a
           ∧ index (join (take n (drop j tokens))) candidates = Some b
           ∧ a < b.
Proof.
  intros tokens candidates. split; [apply extract_keywords_spec |].
  intros i n j Hi Hn Hij Hjn. subst candidates.
  rewrite extract_keywords_spec. unfold spec_candidates. fold tokens.
  pose proof (content_tokens_no_space stop_words query) as Htok. fold tokens in Htok.
  rewrite fmap_app. apply first_by_order.
  - apply list_elem_of_fmap_2, elem_of_ngrams; lia.
  - intros H3. apply (phrase_spaces 3 tokens) in H3; [| done].
    assert (Hg : take n (drop j tokens) ∈ ngrams n tokens)
      by (apply elem_of_ngrams; lia).
    apply (list_elem_of_fmap_2 join), (phrase_spaces n tokens) in Hg; [| done].
    lia.
  - rewrite fmap_app, elem_of_app.
    destruct Hn as [-> | ->]; [right | left];
      apply list_elem_of_fmap_2, elem_of_ngrams; lia.
Qed.

Lemma candidates_longest_first_witness :
  0 + 3 ≤ length (content_tokens _DEFAULT_STOP_WORDS "blood pressure medication")
  ∧ ∃ a b,
      index "blood pressure medication"
            (_extract_keywords _DEFAULT_STOP_WORDS "blood pressure medication") = Some a
      ∧ index "pressure medication"
              (_extract_keywords _DEFAULT_STOP_WORDS "blood pressure medication") = Some b
      ∧ a < b.
Proof.
  assert (H : 0 + 3 ≤ length (content_tokens _DEFAULT_STOP_WORDS
                                "blood pressure medication")) by (vm_compute; lia).
  split; [exact H |].
  exact (proj2 (candidates_longest_first _DEFAULT_STOP_WORDS "blood pressure medication")
           0 2 1 H (or_intror eq_refl) (Nat.le_succ_diag_r 0) (le_n 3)).
Defined.

(** *** Sorting the scored rows *)

Lemma insert_desc_perm x l : insert_desc x l ≡ₚ x :: l.
Proof.
  induction l as [| y l IH]; simpl; [done |].
  destruct (Qle_bool y.1 x.1); [done |]. by rewrite IH, Permutation_swap.
Qed.

Lemma sort_desc_perm l : sort_desc l ≡ₚ l.
Proof.
  induction l as [| x l IH]; simpl; [done |].
  by rewrite insert_desc_perm, IH.
Qed.

Lemma insert_desc_sorted x l :
  StronglySorted by_ratio_desc l → StronglySorted by_ratio_desc (insert_desc x l).
Proof.
  induction 1 as [| y l Hl IH Hy]; simpl; [repeat constructor |].
  destruct (Qle_bool y.1 x.1) eqn:Hle.
  - apply Qle_bool_iff in Hle. constructor; [by constructor |].
    constructor; [exact Hle |].
    eapply Forall_impl; [exact Hy |]. intros z Hz. unfold by_ratio_desc in *.
    by eapply Qle_trans.
  - constructor; [exact IH |]. rewrite insert_desc_perm. constructor; [| exact Hy].
    unfold by_ratio_desc. apply Qlt_le_weak, Qnot_le_lt.
    intros Hle'. apply Qle_bool_iff in Hle'. congruence.
Qed.

Lemma sort_desc_sorted l : StronglySorted by_ratio_desc (sort_desc l).
Proof.
  induction l as [| x l IH]; simpl; [constructor |]. by apply insert_desc_sorted.
Qed.

(** *** The fuzzy stage *)

Section lookup_facts.

Context {Store : Type}.
Variable execute_query : Query → Store → (string + list MatchRow) * Store.
Variable ratio : string → string → Q.

Lemma score_row_elem kw_lower threshold scored row p :
  p ∈ score_row ratio kw_lower threshold scored row
  ↔ p ∈ scored
    ∨ (p.2 = row
       ∧ ∃ name, candidate_name row = Has name ∧ name ≠ ""%string
                 ∧ p.1 = ratio kw_lower name ∧ (threshold <= p.1)%Q).
Proof.
  unfold score_row.
  destruct (candidate_name row) as [| | name]; simpl.
  - split; [by left |]. by intros [H | (_ & name & [=] & _)].
  - split; [by left |]. by intros [H | (_ & name & [=] & _)].
  - destruct (String.eqb_spec name "") as [-> | Hne]; simpl.
    { split; [by left |]. by intros [H | (_ & name & [= <-] & Hne & _)]. }
    destruct (Qle_bool threshold (ratio kw_lower name)) eqn:Hle.
    + apply Qle_bool_iff in Hle.
      rewrite elem_of_app, list_elem_of_singleton. split.
      * intros [H | ->]; [by left | right]. split; [done |]. by exists name.
      * intros [H | (Hrow & name' & [= <-] & _ & Hr & _)]; [by left | right].
        destruct p as [r row']. simpl in *. by subst.
    + split; [by left |].
      intros [H | (_ & name' & [= <-] & _ & Hr & Hthr)]; [done |].
      rewrite Hr in Hthr. apply Qle_bool_iff in Hthr. congruence.
Qed.

Lemma score_rows_elem kw_lower threshold rows acc p :
  p ∈ foldl (score_row ratio kw_lower threshold) acc rows
  ↔ p ∈ acc ∨ kept ratio kw_lower threshold rows p.
Proof.
  revert acc. induction rows as [| row rows IH]; intros acc; simpl.
  - split; [by left |]. intros [H | [H _]]; [done | by apply elem_of_nil in H].
  - rewrite IH, score_row_elem. unfold kept. rewrite elem_of_cons.
    split.
    + intros [[H | [Hrow Hname]] | [Hrows Hname]];
        [by left | right | right]; (split; [| by rewrite ?Hrow]).
      * by left.
      * by right.
    + intros [H | [[Hrow | Hrows] Hname]]; [by left; left | left; right | by right].
      split; [done |]. by rewrite <- Hrow.
Qed.

(** What [scored[:5]] after the sort is: at most five kept rows, best
    first, and no kept row left out is better than one of them. *)
Lemma best_matches_spec keyword threshold rows :
  let best := best_matches ratio keyword threshold rows in
  length best ≤ 5
  ∧ Forall (kept ratio (lower keyword) threshold rows) best
  ∧ StronglySorted by_ratio_desc best
  ∧ ∀ p, kept ratio (lower keyword) threshold rows p →
         p ∈ best ∨ (length best = 5 ∧ Forall (λ b, (p.1 <= b.1)%Q) best).
Proof.
  unfold best_matches.
  set (scored := foldl (score_row ratio (lower keyword) threshold) [] rows).
  assert (Hscored : ∀ p, p ∈ sort_desc scored
                         ↔ kept ratio (lower keyword) threshold rows p).
  { intros p. rewrite sort_desc_perm. unfold scored. rewrite score_rows_elem.
    split; [intros [H | H]; [by apply elem_of_nil in H | done] | by right]. }
  pose proof (sort_desc_sorted scored) as Hsorted.
  rewrite <- (take_drop 5 (sort_desc scored)) in Hsorted.
  simpl. split_and!.
  - rewrite length_take. lia.
  - apply Forall_forall. intros p Hp. apply Hscored.
    by eapply subseteq_take.
  - by eapply StronglySorted_app_1_l.
  - intros p Hp. apply Hscored in Hp.
    rewrite <- (take_drop 5 (sort_desc scored)) in Hp.
    apply elem_of_app in Hp as [Hp | Hp]; [by left | right]. split.
    + rewrite length_take.
      destruct (decide (5 ≤ length (sort_desc scored))); [lia |].
      rewrite drop_ge in Hp by lia. by apply elem_of_nil in Hp.
    + apply Forall_forall. intros b Hb.
      by apply (StronglySorted_app_1_elem_of _ _ _ _ _ Hsorted).
Qed.

(** The length bounds of the pre-filter: exactly the lengths within half
    the keyword length of it. *)
Lemma length_bounds (kw_len L : Z) :
  (0 < kw_len)%Z →
  (1 `max` (kw_len - kw_len `div` 2) ≤ L ≤ kw_len + kw_len `div` 2
   ↔ 2 * Z.abs (L - kw_len) ≤ kw_len)%Z.
Proof.
  intros Hpos.
  pose proof (Z.div_mod kw_len 2 ltac:(lia)) as Hdiv.
  pose proof (Z.mod_pos_bound kw_len 2 ltac:(lia)) as Hmod.
  generalize dependent (kw_len `mod` 2)%Z. generalize dependent (kw_len `div` 2)%Z.
  intros half rest Hdiv Hmod. lia.
Qed.

Lemma exact_match_run keyword self :
  _exact_match execute_query keyword self =
    let q := mkQuery (CyExact (_build_label_filter self) (search_properties self))
                     (PKeyword (lower keyword)) in
    match execute_query q (connector self) with
    | (inl msg, store) => (inl (StoreError msg), with_store self store, [q])
    | (inr rows, store) => (inr (_row_to_node <$> rows), with_store self store, [q])
    end.
Proof.
  unfold _exact_match, bind, get, run_query, ret. simpl.
  by destruct (execute_query _ _) as [[msg | rows] store].
Qed.

Lemma partial_match_run keyword self :
  _partial_match execute_query keyword self =
    let q := mkQuery (CyPartial (_build_label_filter self) (search_properties self))
                     (PKeyword (lower keyword)) in
    match execute_query q (connector self) with
    | (inl msg, store) => (inl (StoreError msg), with_store self store, [q])
    | (inr rows, store) => (inr (_row_to_node <$> rows), with_store self store, [q])
    end.
Proof.
  unfold _partial_match, bind, get, run_query, ret. simpl.
  by destruct (execute_query _ _) as [[msg | rows] store].
Qed.

Lemma fuzzy_match_run keyword self :
  _fuzzy_match execute_query ratio keyword self =
    if _fuzzy_available self then
      match search_properties self with
      | [] => (inl IndexError, self, [])
      | primary_prop :: _ =>
          let q := fuzzy_query keyword self primary_prop in
          match execute_query q (connector self) with
          | (inl msg, store) => (inl (StoreError msg), with_store self store, [q])
          | (inr rows, store) =>
              (inr ((λ p, _row_to_node p.2)
                      <$> best_matches ratio keyword (fuzzy_threshold self) rows),
               with_store self store, [q])
          end
      end
    else (inl ImportError, self, []).
Proof.
  unfold _fuzzy_match, bind, get, lift, run_query, ret, fuzzy_query. simpl.
  destruct (_fuzzy_available self); [| done]. simpl.
  destruct (search_properties self) as [| p ps]; [done |]. simpl.
  by destruct (execute_query _ _) as [[msg | rows] store].
Qed.

(** The fuzzy query occurs in the trace of [_find_in_graph] only past the
    guard, and it is the query of the keyword on the primary property. *)
Lemma find_in_graph_fuzzy keyword self q :
  q ∈ trace (_find_in_graph execute_query ratio keyword self) → is_fuzzy q = true →
  _fuzzy_available self = true ∧ 3 < String.length keyword
  ∧ ∃ primary_prop, head (search_properties self) = Some primary_prop
                    ∧ q = fuzzy_query keyword self primary_prop.
Proof.
  unfold _find_in_graph, bind. rewrite exact_match_run. simpl.
  destruct (execute_query _ (connector self)) as [[msg | rows] store1]; simpl.
  { intros ->%list_elem_of_singleton. discriminate. }
  destruct (_row_to_node <$> rows) as [| n ns]; simpl;
    [| intros ->%list_elem_of_singleton; discriminate].
  rewrite partial_match_run. simpl.
  destruct (execute_query _ store1) as [[msg | rows2] store2]; simpl.
  { intros [-> | ->%list_elem_of_singleton]%elem_of_cons; discriminate. }
  destruct (_row_to_node <$> rows2) as [| n ns]; simpl;
    [| intros [-> | ->%list_elem_of_singleton]%elem_of_cons; discriminate].
  destruct (_fuzzy_available self) eqn:Hav; simpl;
    [| intros [-> | ->%list_elem_of_singleton]%elem_of_cons; discriminate].
  case_bool_decide as Hlen; simpl;
    [| intros [-> | ->%list_elem_of_singleton]%elem_of_cons; discriminate].
  rewrite fuzzy_match_run. simpl. rewrite Hav.
  destruct (search_properties self) as [| p ps] eqn:Hprops; simpl;
    [intros [-> | ->%list_elem_of_singleton]%elem_of_cons; discriminate |].
  intros Hq Hfuzzy.
  assert (q = fuzzy_query keyword self p) as ->.
  { change (fuzzy_query keyword (with_store (with_store self store1) store2) p)
      with (fuzzy_query keyword self p) in Hq.
    destruct (execute_query (fuzzy_query keyword self p) store2)
      as [[msg | rows3] store3]; simpl in Hq.
    - apply elem_of_cons in Hq as [-> | Hq]; [discriminate |].
      apply elem_of_cons in Hq as [-> | Hq]; [discriminate |].
      by apply list_elem_of_singleton in Hq.
    - destruct (_ <$> best_matches _ _ _ _); simpl in Hq;
        (apply elem_of_cons in Hq as [-> | Hq]; [discriminate |];
         apply elem_of_cons in Hq as [-> | Hq]; [discriminate |];
         rewrite ?app_nil_r in Hq; by apply list_elem_of_singleton in Hq). }
  split_and!; [done | done |]. by exists p.
Qed.

(** A blank query is answered without any lookup. *)
Lemma extract_entry_nodes_blank query self :
  blank query = true →
  extract_entry_nodes execute_query ratio query self = (inr [], self, []).
Proof. intros Hb. unfold extract_entry_nodes. by rewrite Hb. Qed.

(** C9. The query of the fuzzy stage is issued by [_find_in_graph] only
    when the similarity capability is available and the candidate is
    longer than 3 characters, and it asks for the nodes whose primary
    property has a length within half the candidate's length of it.  The
    nodes [_fuzzy_match] returns are those of at most five rows of the
    answer, each with a non-empty name whose similarity ratio reaches the
    threshold, ordered by descending ratio, and no row that qualifies
    and is left out has a higher ratio than one returned.  The threshold
    of an extractor made without one is the float 0.85. *)
Theorem fuzzy_stage keyword (self : QueryTimeEntityExtractor Store) :
  (∀ q, q ∈ trace (_find_in_graph execute_query ratio keyword self) →
        is_fuzzy q = true →
        _fuzzy_available self = true ∧ 3 < String.length keyword
        ∧ ∃ primary_prop min_len max_len,
            head (search_properties self) = Some primary_prop
            ∧ q = mkQuery (CyFuzzy (_build_label_filter self) primary_prop)
                          (PLengths min_len max_len)
            ∧ ∀ L : Z, (min_len ≤ L ≤ max_len
                        ↔ 2 * Z.abs (L - Z.of_nat (String.length keyword))
                          ≤ Z.of_nat (String.length keyword))%Z)
  ∧ (∀ nodes, outcome (_fuzzy_match execute_query ratio keyword self) = inr nodes →
       ∃ primary_prop rows store' best,
         execute_query (fuzzy_query keyword self primary_prop) (connector self)
         = (inr rows, store')
         ∧ nodes = (λ p, _row_to_node p.2) <$> best
         ∧ length best ≤ 5
         ∧ Forall (kept ratio (lower keyword) (fuzzy_threshold self) rows) best
         ∧ StronglySorted by_ratio_desc best
         ∧ ∀ p, kept ratio (lower keyword) (fuzzy_threshold self) rows p →
                p ∈ best ∨ (length best = 5 ∧ Forall (λ b, (p.1 <= b.1)%Q) best))
  ∧ (∀ (connector : Store) props labels extra installed,
       fuzzy_threshold (__init__ connector props labels extra None installed)
       = default_fuzzy_threshold).
Proof.
  split_and!.
  - intros q Hq Hfuzzy.
    destruct (find_in_graph_fuzzy keyword self q Hq Hfuzzy) as (Hav & Hlen & p & Hp & ->).
    split_and!; [done | done |].
    eexists p, _, _. split_and!; [done | reflexivity |].
    intros L. apply length_bounds. lia.
  - intros nodes. rewrite fuzzy_match_run.
    destruct (_fuzzy_available self); [| done].
    destruct (search_properties self) as [| p ps]; [done |]. simpl.
    destruct (execute_query _ (connector self)) as [[msg | rows] store'] eqn:Hq;
      [done |].
    intros [= <-].
    destruct (best_matches_spec keyword (fuzzy_threshold self) rows)
      as (Hlen & Hkept & Hsorted & Htop).
    by exists p, rows, store', (best_matches ratio keyword (fuzzy_threshold self) rows).
  - done.
Qed.

End lookup_facts.

(** The default threshold is the float nearest to 0.85. *)
Lemma default_fuzzy_threshold_value :
  ((17 # 20) - (1 # 18014398509481984) <= default_fuzzy_threshold)%Q
  ∧ (default_fuzzy_threshold <= 17 # 20)%Q.
Proof. split; apply Qle_bool_iff; reflexivity. Qed.

Lemma fuzzy_stage_witness :
  fuzzy_query "asprin" sample_extractor "name"
    ∈ trace (_find_in_graph sample_store sample_ratio "asprin" sample_extractor)
  ∧ is_fuzzy (fuzzy_query "asprin" sample_extractor "name") = true
  ∧ _fuzzy_available sample_extractor = true
  ∧ 3 < String.length "asprin"
  ∧ outcome (_find_in_graph sample_store sample_ratio "asprin" sample_extractor)
    = inr [_row_to_node aspirin_row].
Proof.
  assert (H1 : fuzzy_query "asprin" sample_extractor "name"
                 ∈ trace (_find_in_graph sample_store sample_ratio "asprin"
                            sample_extractor))
    by (vm_compute; do 2 right; left).
  assert (H2 : is_fuzzy (fuzzy_query "asprin" sample_extractor "name") = true)
    by reflexivity.
  destruct (proj1 (fuzzy_stage sample_store sample_ratio "asprin" sample_extractor)
              _ H1 H2) as (Hav & Hlen & _).
  split_and!; [exact H1 | exact H2 | exact Hav | exact Hlen |].
  vm_compute. reflexivity.
Defined.

End Extractor_facts.

(** ** More on the traversal engine *)

Module Traversal_extra.
Import Traversal Traversal_facts.

(** *** The node set and the edges of an assembled subgraph *)

Lemma add_endpoint_seen row acc s i :
  i ∈ (add_endpoint row acc s).1
  ↔ i ∈ acc.1 ∨ (col_get (side_id row s) = Some i ∧ i ≠ ""%string).
Proof.
  unfold add_endpoint.
  destruct (col_get (side_id row s)) as [j |]; [| naive_solver].
  simpl. destruct (String.eqb_spec j "") as [-> | Hj]; simpl; [naive_solver |].
  case_bool_decide as Hin; simpl.
  - split; [by left |]. intros [H | [[= ->] _]]; done.
  - rewrite elem_of_union, elem_of_singleton. naive_solver.
Qed.

Lemma add_row_seen row acc i :
  i ∈ (add_row acc row).1.1
  ↔ i ∈ acc.1.1 ∨ ∃ s, col_get (side_id row s) = Some i ∧ i ≠ ""%string.
Proof.
  simpl. rewrite !add_endpoint_seen. split.
  - intros [[H | H] | H]; [by left | right; by exists SideSource
                                   | right; by exists SideTarget].
  - intros [H | [[] H]]; [by left; left | by left; right | by right].
Qed.

Lemma rows_seen rows acc i :
  i ∈ (foldl add_row acc rows).1.1
  ↔ i ∈ acc.1.1
    ∨ ∃ row s, row ∈ rows ∧ col_get (side_id row s) = Some i ∧ i ≠ ""%string.
Proof.
  revert acc. induction rows as [| row rows IH]; intros acc; simpl.
  - split; [by left |]. intros [H | (row & s & H & _)]; [done |].
    by apply elem_of_nil in H.
  - rewrite IH, add_row_seen. setoid_rewrite elem_of_cons. split.
    + intros [[H | (s & H)] | (row' & s & H & H')]; [by left | right | right].
      * exists row, s. split; [by left | done].
      * exists row', s. split; [by right | done].
    + intros [H | (row' & s & [-> | H] & H')]; [by left; left | left; right | right].
      * by exists s.
      * by exists row', s.
Qed.

Lemma seeded_ok entry_nodes : seen_ok (foldl seed_entry (∅, []) entry_nodes).
Proof.
  induction entry_nodes as [| n l IH] using rev_ind.
  - split; [constructor | set_solver].
  - rewrite foldl_app. simpl. by apply seed_entry_ok.
Qed.

(** The ids of the node set: those of the entry nodes and the non-empty
    endpoint ids of the rows. *)
Lemma node_ids_iff rows entry_nodes i :
  i ∈ node_id <$> nodes (_build_subgraph rows entry_nodes)
  ↔ i ∈ node_id <$> entry_nodes
    ∨ ∃ row s, row ∈ rows ∧ col_get (side_id row s) = Some i ∧ i ≠ ""%string.
Proof.
  unfold _build_subgraph.
  pose proof (seeded_ok entry_nodes) as Hok.
  pose proof (foldl_add_unseen_empty node_id entry_nodes) as Hfirst.
  change (add_unseen node_id) with seed_entry in Hfirst.
  set (seeded := foldl seed_entry (∅, []) entry_nodes) in *.
  pose proof (rows_ok rows (seeded, []) Hok) as [_ Hseen].
  pose proof (rows_seen rows (seeded, []) i) as Hrows.
  destruct Hok as [_ Hseed].
  destruct (foldl add_row _ rows) as [[seen ns] rels]. simpl in *.
  by rewrite <- Hseen, Hrows, Hseed, Hfirst, elem_of_first_by.
Qed.

Lemma first_by_subseteq {A} (key : A → string) (l : list A) : first_by key l ⊆ l.
Proof.
  induction l as [| x l IH]; simpl; [done |].
  intros y [-> | Hy]%elem_of_cons; [by left |].
  right. apply IH. by apply list_elem_of_filter in Hy as [_ Hy].
Qed.


Lemma add_endpoint_new row acc s :
  ∃ new, (add_endpoint row acc s).2 = acc.2 ++ new ∧ Forall row_node_ok new.
Proof.
  unfold add_endpoint.
  destruct (col_get (side_id row s)) as [i |];
    [| exists []; by rewrite app_nil_r].
  simpl. destruct (String.eqb_spec i "") as [-> | Hi]; simpl;
    [exists []; by rewrite app_nil_r |].
  case_bool_decide; simpl; [exists []; by rewrite app_nil_r |].
  eexists [_]. split; [done |]. repeat constructor; simpl; [done |].
  destruct (col_get (side_label row s)) as [l |]; simpl; [| by eexists].
  destruct (String.eqb_spec l "") as [-> | Hl]; simpl; by eexists.
Qed.

Lemma rows_new rows acc :
  ∃ new, (foldl add_row acc rows).1.2 = acc.1.2 ++ new ∧ Forall row_node_ok new.
Proof.
  revert acc. induction rows as [| row rows IH]; intros acc; simpl.
  - exists []. by rewrite app_nil_r.
  - destruct (IH (add_row acc row)) as (n3 & E3 & H3).
    destruct (add_endpoint_new row acc.1 SideSource) as (n1 & E1 & H1).
    destruct (add_endpoint_new row (add_endpoint row acc.1 SideSource) SideTarget)
      as (n2 & E2 & H2).
    exists (n1 ++ n2 ++ n3). split; [| by rewrite !Forall_app].
    rewrite E3. simpl. by rewrite E2, E1, <- !app_assoc.
Qed.

Lemma build_subgraph_found rows entry_nodes :
  ∃ found, nodes (_build_subgraph rows entry_nodes)
           = first_by node_id entry_nodes ++ found
           ∧ Forall row_node_ok found.
Proof.
  unfold _build_subgraph.
  pose proof (foldl_add_unseen_empty node_id entry_nodes) as Hfirst.
  change (add_unseen node_id) with seed_entry in Hfirst.
  set (seeded := foldl seed_entry (∅, []) entry_nodes) in *.
  destruct (rows_new rows (seeded, [])) as (new & Hnew & Hok).
  destruct (foldl add_row _ rows) as [[seen ns] rels]. simpl in *.
  exists new. by rewrite Hnew, Hfirst.
Qed.

(** X1. Every edge of an assembled subgraph joins two of its nodes: the
    source id and the target id of each relationship are ids of the node
    set. *)
Theorem edges_join_nodes rows entry_nodes e :
  e ∈ relationships (_build_subgraph rows entry_nodes) →
  edge_source_id e ∈ node_id <$> nodes (_build_subgraph rows entry_nodes)
  ∧ edge_target_id e ∈ node_id <$> nodes (_build_subgraph rows entry_nodes).
Proof.
  rewrite build_subgraph_edges, list_elem_of_omap.
  intros (row & Hrow & He). unfold row_edge, has_endpoints in He.
  destruct (col_get (source_id row)) as [s |] eqn:Hs; [| done].
  destruct (col_get (target_id row)) as [t |] eqn:Ht;
    [| by rewrite andb_false_r in He].
  simpl in He.
  destruct (String.eqb_spec s "") as [-> | Hs']; [done |].
  destruct (String.eqb_spec t "") as [-> | Ht']; [done |].
  injection He as <-. simpl. rewrite !node_ids_iff. split; right.
  - by exists row, SideSource.
  - by exists row, SideTarget.
Qed.

Lemma edges_join_nodes_witness :
  causes_edge ∈ relationships (_build_subgraph [causes_nausea] [aspirin])
  ∧ "id:2"%string ∈ node_id <$> nodes (_build_subgraph [causes_nausea] [aspirin]).
Proof.
  assert (H : causes_edge ∈ relationships (_build_subgraph [causes_nausea] [aspirin]))
    by (vm_compute; left).
  split; [exact H |].
  exact (proj2 (edges_join_nodes [causes_nausea] [aspirin] causes_edge H)).
Defined.

(** X2. The ids of the node set are exactly the ids of the entry nodes
    and the non-empty source and target ids of the rows: no endpoint that
    has an id is lost, and no other id appears. *)
Theorem node_ids_exact rows entry_nodes i :
  i ∈ node_id <$> nodes (_build_subgraph rows entry_nodes)
  ↔ i ∈ node_id <$> entry_nodes
    ∨ ∃ row s, row ∈ rows ∧ col_get (side_id row s) = Some i ∧ i ≠ ""%string.
Proof. apply node_ids_iff. Qed.

(** X3. An entry node is never replaced by what a row says about the
    same id: a node of the subgraph whose id is that of an entry node is
    one of the entry nodes given. *)
Theorem entry_node_kept rows entry_nodes n :
  n ∈ nodes (_build_subgraph rows entry_nodes) →
  node_id n ∈ node_id <$> entry_nodes →
  n ∈ entry_nodes.
Proof.
  intros Hn Hid.
  destruct (build_subgraph_nodes rows entry_nodes) as (Hnd & _ & found & Hfound).
  rewrite Hfound in Hn, Hnd. apply elem_of_app in Hn as [Hn | Hn].
  - by apply (first_by_subseteq node_id).
  - rewrite fmap_app in Hnd. apply NoDup_app in Hnd as (_ & Hdisj & _).
    exfalso. apply (Hdisj (node_id n)).
    + by apply elem_of_first_by.
    + by apply list_elem_of_fmap_2.
Qed.

Lemma entry_node_kept_witness :
  aspirin ∈ nodes (_build_subgraph [causes_nausea] [aspirin])
  ∧ node_id aspirin ∈ node_id <$> [aspirin]
  ∧ aspirin ∈ [aspirin].
Proof.
  assert (H1 : aspirin ∈ nodes (_build_subgraph [causes_nausea] [aspirin]))
    by (vm_compute; left).
  assert (H2 : node_id aspirin ∈ node_id <$> [aspirin]) by (vm_compute; left).
  split_and!; [exact H1 | exact H2 |].
  exact (entry_node_kept [causes_nausea] [aspirin] aspirin H1 H2).
Defined.


(** *** Calls *)

Section call_facts.

Context {Store : Type}.
Variable execute_query : Query → Store → (string + list Row) * Store.

Lemma bind_lift_inr {A B} (a : A) (k : A → M (SmartTraversalEngine Store) event B) self :
  bind (lift (inr a)) k self = k a self.
Proof. unfold bind, lift. by destruct (k a self) as [[r s] tr]. Qed.

Lemma bind_lift_inl {A B} e (k : A → M (SmartTraversalEngine Store) event B) self :
  bind (lift (inl e)) k self = (inl e, self, []).
Proof. done. Qed.

Lemma run_query_runs q hd (self : SmartTraversalEngine Store) :
  runs_one_query execute_query (q_ids q) self
    (bind (run_query execute_query q) (λ rows, ret (rows, hd)) self).
Proof.
  right. exists q, hd. split; [done |]. unfold bind, run_query, ret.
  by destruct (execute_query q (connector self)) as [[msg | rows] store].
Qed.

Lemma targeted_runs entry_ids pattern (self : SmartTraversalEngine Store) :
  runs_one_query execute_query entry_ids self
    (_targeted execute_query entry_ids pattern self).
Proof.
  unfold _targeted, dict_item.
  destruct (pattern !! "relationship") as [rel |].
  - rewrite bind_lift_inr. apply (run_query_runs (mkQuery _ entry_ids None)).
  - rewrite bind_lift_inl. left. eexists. split; [| done]. right. right. by eexists.
Qed.

Lemma chain_steps_error hops e :
  chain_steps hops = inl e → e = TypeError ∨ e = KeyError "relationship".
Proof.
  induction hops as [| hop hops IH]; simpl; [done |].
  destruct (chain_step hop) as [e' | tok] eqn:Hstep.
  - intros [= <-]. unfold chain_step, dict_item in Hstep.
    destruct hop as [| | | | | h]; try (injection Hstep as <-; by left).
    destruct (h !! "relationship"); [done |]. injection Hstep as <-. by right.
  - destruct (chain_steps hops); [| done]. intros [= <-]. by apply IH.
Qed.

Lemma chain_steps_length hops toks :
  chain_steps hops = inr toks → length toks = length hops.
Proof.
  revert toks. induction hops as [| hop hops IH]; intros toks; simpl.
  - by intros [= <-].
  - destruct (chain_step hop); [done |].
    destruct (chain_steps hops) as [| toks']; [done |].
    intros [= <-]. simpl. f_equal. by apply IH.
Qed.

Lemma len_iter v n items :
  len v = inr n → iter v = inr items → n = Z.of_nat (length items).
Proof.
  destruct v as [| | | s | l | d]; simpl; try done.
  - intros [= <-] [= <-]. rewrite length_fmap. f_equal.
    induction s as [| c s IH]; simpl; [done |]. by rewrite IH.
  - by intros [= <-] [= <-].
  - intros [= <-] [= <-]. by rewrite length_fmap, length_map_to_list.
Qed.

Lemma chained_runs entry_ids pattern (self : SmartTraversalEngine Store) :
  runs_one_query execute_query entry_ids self
    (_chained execute_query entry_ids pattern self).
Proof.
  unfold _chained, dict_item.
  destruct (pattern !! "hops") as [hops |];
    [rewrite bind_lift_inr
    | rewrite bind_lift_inl; left; eexists; split; [| done]; right; right; by eexists].
  destruct (len hops) as [e | n] eqn:Hlen.
  { rewrite bind_lift_inl. left. exists e. split; [| done]. left.
    destruct hops; simpl in Hlen; congruence. }
  rewrite bind_lift_inr.
  destruct (iter hops) as [e | items] eqn:Hiter.
  { rewrite bind_lift_inl. left. exists e. split; [| done]. left.
    destruct hops; simpl in Hiter; congruence. }
  rewrite bind_lift_inr.
  destruct (chain_steps items) as [e | toks] eqn:Hsteps.
  { rewrite bind_lift_inl. left. exists e. split; [| done].
    destruct (chain_steps_error _ _ Hsteps) as [-> | ->];
      [by left | right; right; by eexists]. }
  rewrite bind_lift_inr. apply (run_query_runs (mkQuery _ entry_ids None)).
Qed.

Lemma variable_hop_runs entry_ids pattern (self : SmartTraversalEngine Store) :
  runs_one_query execute_query entry_ids self
    (_variable_hop execute_query entry_ids pattern self).
Proof. apply (run_query_runs (mkQuery _ entry_ids None)). Qed.

Lemma shortest_path_runs entry_ids pattern (self : SmartTraversalEngine Store) :
  runs_one_query execute_query entry_ids self
    (_shortest_path execute_query entry_ids pattern self).
Proof.
  unfold _shortest_path. destruct (_ <? _)%Z.
  - apply variable_hop_runs.
  - apply (run_query_runs (mkQuery _ entry_ids None)).
Qed.

Lemma shared_neighbor_runs entry_ids pattern (self : SmartTraversalEngine Store) :
  runs_one_query execute_query entry_ids self
    (_shared_neighbor execute_query entry_ids pattern self).
Proof.
  unfold _shared_neighbor, min_int.
  destruct (as_int _) as [c |].
  - rewrite bind_lift_inr. apply (run_query_runs (mkQuery _ entry_ids (Some _))).
  - rewrite bind_lift_inl. left. exists TypeError. split; [by left | done].
Qed.

Lemma general_runs entry_ids pattern (self : SmartTraversalEngine Store) :
  runs_one_query execute_query entry_ids self
    (_general execute_query entry_ids pattern self).
Proof.
  right. exists (mkQuery (CyGeneral (_general_limit self)) entry_ids None), (VInt 1).
  split; [done |]. unfold _general, bind, get, run_query, ret. simpl.
  by destruct (execute_query _ (connector self)) as [[msg | rows] store].
Qed.

Lemma dispatch_get_runs strategy fn entry_ids pattern (self : SmartTraversalEngine Store) :
  dispatch_get execute_query strategy = inr fn →
  runs_one_query execute_query entry_ids self (fn entry_ids pattern self).
Proof.
  destruct strategy as [| b | z | s | l | d]; simpl; try done;
    try (intros [= <-]; apply general_runs).
  intros [= <-]. unfold dispatch.
  repeat (destruct (String.eqb s _);
          [simpl; first [ apply targeted_runs | apply chained_runs
                        | apply variable_hop_runs | apply shortest_path_runs
                        | apply shared_neighbor_runs ] |]).
  apply general_runs.
Qed.

(** [traverse] with entry nodes, step by step. *)
Lemma traverse_steps entry_nodes intent (self : SmartTraversalEngine Store) :
  entry_nodes ≠ [] →
  traverse execute_query entry_nodes intent self =
    let pattern := _intent_patterns self !! intent in
    match (if is_set pattern then strategy_of pattern else inr (VStr "general")) with
    | inl e => (inl e, self, [EvLookup intent])
    | inr strategy =>
        match dispatch_get execute_query strategy with
        | inl e => (inl e, self, [EvLookup intent])
        | inr fn =>
            match fn (node_id <$> entry_nodes) (or_empty pattern) self with
            | (inl e, self', tr) => (inl e, self', EvLookup intent :: tr)
            | (inr res, self', tr) =>
                (inr {| nodes := nodes (_build_subgraph res.1 entry_nodes);
                        relationships :=
                          relationships (_build_subgraph res.1 entry_nodes);
                        strategy := Some strategy;
                        hop_depth := Some res.2 |},
                 self', EvLookup intent :: tr)
            end
        end
    end.
Proof.
  intros Hne. destruct entry_nodes as [| n l]; [done |].
  unfold traverse. set (ids := node_id <$> n :: l).
  unfold bind, registry_get, lift, ret. simpl.
  destruct (if is_set _ then _ else _) as [e | strategy]; [done |].
  destruct (dispatch_get execute_query strategy) as [e | fn]; [done |]. simpl.
  destruct (fn ids _ self) as [[[e | res] self'] tr]; [done |].
  by rewrite app_nil_r.
Qed.

(** A call with entry nodes either raises on the configuration right
    after the lookup, or issues one query on the entry ids and assembles
    what the store answers. *)
Lemma traverse_run entry_nodes intent (self : SmartTraversalEngine Store) :
  entry_nodes ≠ [] →
  (∃ e, config_error e
        ∧ traverse execute_query entry_nodes intent self
          = (inl e, self, [EvLookup intent]))
  ∨ ∃ q strategy hd,
      q_ids q = node_id <$> entry_nodes
      ∧ traverse execute_query entry_nodes intent self
        = match execute_query q (connector self) with
          | (inl msg, store) =>
              (inl (StoreError msg), with_store self store,
               [EvLookup intent; EvQuery q])
          | (inr rows, store) =>
              (inr {| nodes := nodes (_build_subgraph rows entry_nodes);
                      relationships :=
                        relationships (_build_subgraph rows entry_nodes);
                      strategy := Some strategy;
                      hop_depth := Some hd |},
               with_store self store, [EvLookup intent; EvQuery q])
          end.
Proof.
  intros Hne. rewrite (traverse_steps _ _ _ Hne). simpl.
  destruct (if is_set _ then _ else _) as [e | strategy] eqn:Hstrat.
  { left. exists e. split; [| done].
    destruct (is_set _); [| done]. unfold strategy_of in Hstrat.
    right. left. destruct (_ !! intent) as [[] |]; congruence. }
  destruct (dispatch_get execute_query strategy) as [e | fn] eqn:Hfn.
  { left. exists e. split; [| done]. left. destruct strategy; simpl in Hfn; congruence. }
  destruct (dispatch_get_runs strategy fn (node_id <$> entry_nodes)
              (or_empty (_intent_patterns self !! intent)) self Hfn)
    as [(e & He & ->) | (q & hd & Hids & ->)].
  - left. by exists e.
  - right. exists q, strategy, hd. split; [done |].
    by destruct (execute_query q (connector self)) as [[msg | rows] store].
Qed.

(** X5. A call issues at most one store query, after one registry
    lookup, and the [ids] parameter of that query is the list of the ids
    of the entry nodes, in the order given and with its duplicates: the
    trace of a call is empty (no entry node), the lookup alone (the call
    raised on the configuration), or the lookup and one query. *)
Theorem traverse_trace_shape entry_nodes intent (self : SmartTraversalEngine Store) :
  (entry_nodes = [] ∧ trace (traverse execute_query entry_nodes intent self) = [])
  ∨ (∃ e, config_error e
          ∧ outcome (traverse execute_query entry_nodes intent self) = inl e
          ∧ trace (traverse execute_query entry_nodes intent self) = [EvLookup intent])
  ∨ ∃ q, q_ids q = node_id <$> entry_nodes
         ∧ trace (traverse execute_query entry_nodes intent self)
           = [EvLookup intent; EvQuery q].
Proof.
  destruct (decide (entry_nodes = [])) as [-> | Hne]; [by left |]. right.
  destruct (traverse_run entry_nodes intent self Hne)
    as [(e & He & ->) | (q & strategy & hd & Hids & ->)].
  - left. by exists e.
  - right. exists q. split; [done |].
    by destruct (execute_query q (connector self)) as [[msg | rows] store].
Qed.

(** X6. No call changes the pattern registry or the node limit of the
    engine, whatever its outcome; and a call that issues no query leaves
    the whole engine, store included, as it was. *)
Theorem traverse_keeps_configuration entry_nodes intent
    (self : SmartTraversalEngine Store) :
  _intent_patterns (self_after (traverse execute_query entry_nodes intent self))
  = _intent_patterns self
  ∧ _general_limit (self_after (traverse execute_query entry_nodes intent self))
    = _general_limit self
  ∧ ((∀ q, EvQuery q ∉ trace (traverse execute_query entry_nodes intent self)) →
     self_after (traverse execute_query entry_nodes intent self) = self).
Proof.
  destruct (decide (entry_nodes = [])) as [-> | Hne]; [done |].
  destruct (traverse_run entry_nodes intent self Hne)
    as [(e & He & ->) | (q & strategy & hd & Hids & ->)]; [done |].
  destruct (execute_query q (connector self)) as [[msg | rows] store];
    (split_and!; [done | done |]); intros Hq; exfalso; apply (Hq q);
    unfold trace; simpl; set_solver.
Qed.

(** X7. What a call returns is decided by the answer of the store to the
    query it issued: when the store fails, the call raises that failure
    and nothing else; when it answers rows, the call returns the subgraph
    assembled from exactly these rows and the entry nodes.  Either way the
    engine is left with the store as the query left it. *)
Theorem traverse_follows_store entry_nodes intent (self : SmartTraversalEngine Store) q :
  EvQuery q ∈ trace (traverse execute_query entry_nodes intent self) →
  match execute_query q (connector self) with
  | (inl msg, store) =>
      outcome (traverse execute_query entry_nodes intent self) = inl (StoreError msg)
      ∧ connector (self_after (traverse execute_query entry_nodes intent self)) = store
  | (inr rows, store) =>
      (∃ sg, outcome (traverse execute_query entry_nodes intent self) = inr sg
             ∧ nodes sg = nodes (_build_subgraph rows entry_nodes)
             ∧ relationships sg = relationships (_build_subgraph rows entry_nodes))
      ∧ connector (self_after (traverse execute_query entry_nodes intent self)) = store
  end.
Proof.
  destruct (decide (entry_nodes = [])) as [-> | Hne];
    [by intros ?%elem_of_nil |].
  destruct (traverse_run entry_nodes intent self Hne)
    as [(e & He & ->) | (q' & strategy & hd & Hids & ->)].
  - unfold trace. simpl. by intros [=]%list_elem_of_singleton.
  - assert (Hq : EvQuery q ∈ [EvLookup intent; EvQuery q'] → q = q').
    { intros [[=] | [= ->]%list_elem_of_singleton]%elem_of_cons. done. }
    destruct (execute_query q' (connector self)) as [[msg | rows] store] eqn:E;
      intros ->%Hq; rewrite E; [done |].
    split; [| done]. by eexists.
Qed.

(** X8. A call that raises has either failed in the store, after the one
    query it issued, or on the configuration, before any query: then the
    exception is a [KeyError], a [TypeError] or an [AttributeError], and
    the engine is exactly as it was. *)
Theorem traverse_failure entry_nodes intent (self : SmartTraversalEngine Store) e :
  outcome (traverse execute_query entry_nodes intent self) = inl e →
  (∃ msg q, e = StoreError msg
            ∧ trace (traverse execute_query entry_nodes intent self)
              = [EvLookup intent; EvQuery q])
  ∨ (config_error e
     ∧ trace (traverse execute_query entry_nodes intent self) = [EvLookup intent]
     ∧ self_after (traverse execute_query entry_nodes intent self) = self).
Proof.
  destruct (decide (entry_nodes = [])) as [-> | Hne]; [done |].
  destruct (traverse_run entry_nodes intent self Hne)
    as [(e' & He & ->) | (q & strategy & hd & Hids & ->)].
  - intros [= <-]. by right.
  - destruct (execute_query q (connector self)) as [[msg | rows] store]; [| done].
    intros [= <-]. left. by exists msg, q.
Qed.

(** X9. An intent that is not registered, or whose pattern is empty or
    null, is served by the general strategy: one undirected one-hop query
    bounded by the node limit of the engine, reported as strategy
    "general" with hop depth 1. *)
Theorem traverse_general_fallback entry_nodes intent (self : SmartTraversalEngine Store) :
  entry_nodes ≠ [] →
  is_set (_intent_patterns self !! intent) = false →
  let q := mkQuery (CyGeneral (_general_limit self)) (node_id <$> entry_nodes) None in
  traverse execute_query entry_nodes intent self
  = match execute_query q (connector self) with
    | (inl msg, store) =>
        (inl (StoreError msg), with_store self store, [EvLookup intent; EvQuery q])
    | (inr rows, store) =>
        (inr {| nodes := nodes (_build_subgraph rows entry_nodes);
                relationships := relationships (_build_subgraph rows entry_nodes);
                strategy := Some (VStr "general");
                hop_depth := Some (VInt 1) |},
         with_store self store, [EvLookup intent; EvQuery q])
    end.
Proof.
  intros Hne Hset q. rewrite (traverse_steps _ _ _ Hne). simpl. rewrite Hset. simpl.
  unfold _general, bind, get, run_query, ret. simpl. fold q.
  by destruct (execute_query q (connector self)) as [[msg | rows] store].
Qed.

(** X10. A pattern whose strategy is a name the engine does not know is
    served by the general strategy as well, but the subgraph is reported
    under the unknown name, not as "general". *)
Theorem traverse_unknown_strategy entry_nodes intent (self : SmartTraversalEngine Store)
    pattern s :
  entry_nodes ≠ [] →
  _intent_patterns self !! intent = Some (VDict pattern) →
  pattern !! "strategy" = Some (VStr s) →
  s ∉ ["targeted"; "chained"; "variable_hop"; "shortest_path";
       "shared_neighbor"]%string →
  let q := mkQuery (CyGeneral (_general_limit self)) (node_id <$> entry_nodes) None in
  traverse execute_query entry_nodes intent self
  = match execute_query q (connector self) with
    | (inl msg, store) =>
        (inl (StoreError msg), with_store self store, [EvLookup intent; EvQuery q])
    | (inr rows, store) =>
        (inr {| nodes := nodes (_build_subgraph rows entry_nodes);
                relationships := relationships (_build_subgraph rows entry_nodes);
                strategy := Some (VStr s);
                hop_depth := Some (VInt 1) |},
         with_store self store, [EvLookup intent; EvQuery q])
    end.
Proof.
  intros Hne Hreg Hs Hnot q.
  rewrite (traverse_registered _ _ _ _ _ _ Hne Hreg Hs).
  assert (dispatch execute_query s = None) as ->.
  { unfold dispatch.
    repeat match goal with
           | |- context [String.eqb s ?name] =>
               destruct (String.eqb_spec s name) as [-> | _];
               [exfalso; apply Hnot; repeat constructor |]
           end.
    done. }
  simpl. unfold _general, bind, get, run_query, ret. simpl. fold q.
  by destruct (execute_query q (connector self)) as [[msg | rows] store].
Qed.

(** X11. A registered pattern that is not a dict (and not empty or null)
    makes the call raise [AttributeError], and a strategy that is a list
    or a dict makes it raise [TypeError]; in both cases no query is
    issued and the engine is unchanged. *)
Theorem traverse_malformed_pattern entry_nodes intent (self : SmartTraversalEngine Store) :
  entry_nodes ≠ [] →
  (∀ v, _intent_patterns self !! intent = Some v →
        truthy v = true → (∀ d, v ≠ VDict d) →
        traverse execute_query entry_nodes intent self
        = (inl AttributeError, self, [EvLookup intent]))
  ∧ (∀ pattern strategy,
       _intent_patterns self !! intent = Some (VDict pattern) →
       pattern !! "strategy" = Some strategy →
       (∃ l, strategy = VList l) ∨ (∃ d, strategy = VDict d) →
       traverse execute_query entry_nodes intent self
       = (inl TypeError, self, [EvLookup intent])).
Proof.
  intros Hne. split.
  - intros v Hreg Hv Hnd. rewrite (traverse_steps _ _ _ Hne). simpl.
    rewrite Hreg. simpl. rewrite Hv. destruct v; try done. by destruct (Hnd d).
  - intros pattern strategy Hreg Hs Hshape. rewrite (traverse_steps _ _ _ Hne).
    simpl. rewrite Hreg. simpl.
    assert (negb (bool_decide (pattern = ∅)) = true) as ->.
    { apply negb_true_iff, bool_decide_eq_false. intros ->.
      by rewrite lookup_empty in Hs. }
    unfold dict_get. rewrite Hs. by destruct Hshape as [[l ->] | [d ->]].
Qed.

Lemma pattern_is_set (pattern : gmap string value) k v :
  pattern !! k = Some v → negb (bool_decide (pattern = ∅)) = true.
Proof.
  intros Hk. apply negb_true_iff, bool_decide_eq_false. intros ->.
  by rewrite lookup_empty in Hk.
Qed.

(** X12. A pattern that names no strategy is handled as [targeted]: the
    call raises [KeyError] on "relationship" before any query when the
    pattern has no relationship, and otherwise issues one single-hop
    query over that relationship and reports strategy "targeted" with hop
    depth 1. *)
Theorem traverse_default_targeted entry_nodes intent (self : SmartTraversalEngine Store)
    pattern :
  entry_nodes ≠ [] →
  _intent_patterns self !! intent = Some (VDict pattern) →
  pattern ≠ ∅ →
  pattern !! "strategy" = None →
  (pattern !! "relationship" = None →
   traverse execute_query entry_nodes intent self
   = (inl (KeyError "relationship"), self, [EvLookup intent]))
  ∧ (∀ rel, pattern !! "relationship" = Some rel →
       ∃ src tgt anchor,
         trace (traverse execute_query entry_nodes intent self)
         = [EvLookup intent;
            EvQuery (mkQuery (CyTargeted src rel tgt anchor)
                             (node_id <$> entry_nodes) None)]
         ∧ ∀ sg, outcome (traverse execute_query entry_nodes intent self) = inr sg →
                 strategy sg = Some (VStr "targeted")
                 ∧ hop_depth sg = Some (VInt 1)).
Proof.
  intros Hne Hreg Hnonempty Hs.
  assert (Hsteps := traverse_steps entry_nodes intent self Hne).
  simpl in Hsteps. rewrite Hreg in Hsteps. simpl in Hsteps.
  rewrite (bool_decide_eq_false_2 _ Hnonempty) in Hsteps. simpl in Hsteps.
  unfold dict_get in Hsteps. rewrite Hs in Hsteps. simpl in Hsteps.
  rewrite Hsteps. clear Hsteps. unfold _targeted, dict_item. split.
  - by intros ->.
  - intros rel ->. rewrite bind_lift_inr. do 3 eexists.
    unfold bind, run_query, ret, trace, outcome. simpl.
    destruct (execute_query _ (connector self)) as [[msg | rows] store]; simpl;
      (split; [reflexivity |]); [done |].
    by intros sg [= <-].
Qed.

Lemma chained_returns entry_ids pattern (self : SmartTraversalEngine Store) rows hd :
  outcome (_chained execute_query entry_ids pattern self) = inr (rows, hd) →
  ∃ hops entry_node path_tokens,
    pattern !! "hops" = Some hops
    ∧ len hops = inr (Z.of_nat (length path_tokens))
    ∧ hd = VInt (Z.of_nat (length path_tokens))
    ∧ trace (_chained execute_query entry_ids pattern self)
      = [EvQuery (mkQuery (CyChained entry_node path_tokens) entry_ids None)].
Proof.
  unfold _chained, dict_item.
  destruct (pattern !! "hops") as [hops |]; [| done]. rewrite bind_lift_inr.
  destruct (len hops) as [e | n] eqn:Hlen; [done |]. rewrite bind_lift_inr.
  destruct (iter hops) as [e | items] eqn:Hiter; [done |]. rewrite bind_lift_inr.
  destruct (chain_steps items) as [e | toks] eqn:Hsteps; [done |].
  rewrite bind_lift_inr.
  pose proof (len_iter _ _ _ Hlen Hiter) as ->.
  rewrite <- (chain_steps_length _ _ Hsteps) in *.
  unfold bind, run_query, ret, trace, outcome. simpl.
  destruct (execute_query _ (connector self)) as [[msg | rows'] store]; simpl;
    [done |].
  intros [= <- <-]. by eexists hops, _, toks.
Qed.

(** X13. When [_chained] returns, the hop depth it reports is the number
    of hops of the pattern, which is also the number of relationship
    steps of the path pattern it queried. *)
Theorem chained_hop_depth entry_ids pattern (self : SmartTraversalEngine Store) rows hd :
  outcome (_chained execute_query entry_ids pattern self) = inr (rows, hd) →
  ∃ hops entry_node path_tokens,
    pattern !! "hops" = Some hops
    ∧ len hops = inr (Z.of_nat (length path_tokens))
    ∧ hd = VInt (Z.of_nat (length path_tokens))
    ∧ trace (_chained execute_query entry_ids pattern self)
      = [EvQuery (mkQuery (CyChained entry_node path_tokens) entry_ids None)].
Proof. apply chained_returns. Qed.

Lemma one_hop_returns entry_ids pattern (self : SmartTraversalEngine Store) res :
  outcome (_targeted execute_query entry_ids pattern self) = inr res
  ∨ outcome (_shared_neighbor execute_query entry_ids pattern self) = inr res
  ∨ outcome (_general execute_query entry_ids pattern self) = inr res →
  res.2 = VInt 1.
Proof.
  unfold _targeted, _shared_neighbor, _general, dict_item, min_int.
  intros [H | [H | H]]; revert H.
  - destruct (pattern !! "relationship"); [| done]. rewrite bind_lift_inr.
    unfold bind, run_query, ret, outcome. simpl.
    destruct (execute_query _ (connector self)) as [[msg | rows] store]; [done |].
    by intros [= <-].
  - destruct (as_int _); [| done]. rewrite bind_lift_inr.
    unfold bind, run_query, ret, outcome. simpl.
    destruct (execute_query _ (connector self)) as [[msg | rows] store]; [done |].
    by intros [= <-].
  - unfold bind, get, run_query, ret, outcome. simpl.
    destruct (execute_query _ (connector self)) as [[msg | rows] store]; [done |].
    by intros [= <-].
Qed.

Lemma max_hops_returns entry_ids pattern (self : SmartTraversalEngine Store) res :
  (outcome (_variable_hop execute_query entry_ids pattern self) = inr res →
   res.2 = default (VInt 2) (pattern !! "max_hops"))
  ∧ (outcome (_shortest_path execute_query entry_ids pattern self) = inr res →
     res.2 = default (VInt 6) (pattern !! "max_hops")).
Proof.
  split.
  - rewrite variable_hop_run. simpl.
    destruct (execute_query _ (connector self)) as [[msg | rows] store]; [done |].
    by intros [= <-].
  - unfold _shortest_path. destruct (_ <? _)%Z.
    + rewrite variable_hop_run, lookup_insert_ne, lookup_insert_eq by done. simpl.
      destruct (execute_query _ (connector self)) as [[msg | rows] store]; [done |].
      intros [= <-]. simpl. unfold dict_get. by destruct (pattern !! "max_hops").
    + unfold bind, run_query, ret, outcome. simpl.
      destruct (execute_query _ (connector self)) as [[msg | rows] store]; [done |].
      intros [= <-]. simpl. unfold dict_get. by destruct (pattern !! "max_hops").
Qed.

(** X14. The hop depth of a subgraph returned for a registered pattern
    depends on the strategy alone, never on the rows: it is the value of
    [max_hops] as configured (2 by default) for [variable_hop] and (6 by
    default) for [shortest_path], the number of hops for [chained], and 1
    for every other strategy name. *)
Theorem traverse_hop_depth entry_nodes intent (self : SmartTraversalEngine Store)
    pattern s sg :
  entry_nodes ≠ [] →
  _intent_patterns self !! intent = Some (VDict pattern) →
  pattern !! "strategy" = Some (VStr s) →
  outcome (traverse execute_query entry_nodes intent self) = inr sg →
  (s = "variable_hop"%string →
   hop_depth sg = Some (default (VInt 2) (pattern !! "max_hops")))
  ∧ (s = "shortest_path"%string →
     hop_depth sg = Some (default (VInt 6) (pattern !! "max_hops")))
  ∧ (s = "chained"%string →
     ∃ hops n, pattern !! "hops" = Some hops ∧ len hops = inr (Z.of_nat n)
               ∧ hop_depth sg = Some (VInt (Z.of_nat n)))
  ∧ (s ∉ ["chained"; "variable_hop"; "shortest_path"]%string →
     hop_depth sg = Some (VInt 1)).
Proof.
  intros Hne Hreg Hs. rewrite (traverse_registered _ _ _ _ _ _ Hne Hreg Hs).
  set (ids := node_id <$> entry_nodes).
  destruct (default (_general execute_query) (dispatch execute_query s) ids pattern self)
    as [[[e | res] self'] tr] eqn:Hfn; [done |].
  intros [= <-]. simpl.
  assert (Hout : ∀ fn, dispatch execute_query s = fn →
                       outcome (default (_general execute_query) fn ids pattern self)
                       = inr res).
  { intros fn <-. by rewrite Hfn. }
  split_and!.
  - intros ->. f_equal. by apply (max_hops_returns ids pattern self res), (Hout _ eq_refl).
  - intros ->. f_equal. by apply (max_hops_returns ids pattern self res), (Hout _ eq_refl).
  - intros ->. specialize (Hout _ eq_refl). simpl in Hout.
    destruct res as [rows hd].
    destruct (chained_returns ids pattern self rows hd Hout)
      as (hops & entry & toks & Hhops & Hlen & -> & _).
    by exists hops, (length toks).
  - intros Hnot. f_equal. apply (one_hop_returns ids pattern self).
    specialize (Hout _ eq_refl). revert Hout. unfold dispatch.
    repeat match goal with
           | |- context [String.eqb s ?name] =>
               destruct (String.eqb_spec s name) as [-> | _]
           end; simpl; try tauto; intros _; exfalso; apply Hnot; repeat constructor.
Qed.

End call_facts.

(** *** The properties at the sample engines *)

Lemma traverse_keeps_configuration_witness :
  (∀ q, EvQuery q ∉ trace (traverse one_edge_store [aspirin] "indirect_symptoms"
                                    sample_engine))
  ∧ self_after (traverse one_edge_store [aspirin] "indirect_symptoms" sample_engine)
    = sample_engine.
Proof.
  assert (H : ∀ q, EvQuery q ∉ trace (traverse one_edge_store [aspirin]
                                               "indirect_symptoms" sample_engine)).
  { intros q Hq. vm_compute in Hq. apply list_elem_of_singleton in Hq. discriminate. }
  split; [exact H |].
  exact (proj2 (proj2 (traverse_keeps_configuration one_edge_store [aspirin]
                         "indirect_symptoms" sample_engine)) H).
Defined.

Lemma traverse_follows_store_witness :
  EvQuery (mkQuery (CyTargeted None (VStr "CAUSES") None AnchorSource)
                   ["id:1"%string] None)
    ∈ trace (traverse one_edge_store [aspirin] "side_effects" sample_engine)
  ∧ ∃ sg, outcome (traverse one_edge_store [aspirin] "side_effects" sample_engine)
          = inr sg
          ∧ nodes sg = nodes (_build_subgraph [causes_nausea] [aspirin])
          ∧ relationships sg = relationships (_build_subgraph [causes_nausea] [aspirin]).
Proof.
  assert (H : EvQuery (mkQuery (CyTargeted None (VStr "CAUSES") None AnchorSource)
                               ["id:1"%string] None)
                ∈ trace (traverse one_edge_store [aspirin] "side_effects"
                                  sample_engine))
    by (vm_compute; right; left).
  split; [exact H |].
  exact (proj1 (traverse_follows_store one_edge_store [aspirin] "side_effects"
                  sample_engine _ H)).
Defined.

Lemma traverse_failure_witness :
  outcome (traverse failing_store [aspirin] "side_effects" sample_engine)
  = inl (StoreError "ServiceUnavailable")
  ∧ ((∃ msg q, StoreError "ServiceUnavailable" = StoreError msg
               ∧ trace (traverse failing_store [aspirin] "side_effects" sample_engine)
                 = [EvLookup "side_effects"; EvQuery q])
     ∨ (config_error (StoreError "ServiceUnavailable")
        ∧ trace (traverse failing_store [aspirin] "side_effects" sample_engine)
          = [EvLookup "side_effects"]
        ∧ self_after (traverse failing_store [aspirin] "side_effects" sample_engine)
          = sample_engine)).
Proof.
  assert (H : outcome (traverse failing_store [aspirin] "side_effects" sample_engine)
              = inl (StoreError "ServiceUnavailable")) by reflexivity.
  split; [exact H |].
  exact (traverse_failure failing_store [aspirin] "side_effects" sample_engine _ H).
Defined.

Lemma traverse_general_fallback_witness :
  [aspirin] ≠ []
  ∧ is_set (_intent_patterns sample_engine !! "dosage") = false
  ∧ traverse one_edge_store [aspirin] "dosage" sample_engine
    = (inr {| nodes := [aspirin; nausea]; relationships := [causes_edge];
              strategy := Some (VStr "general"); hop_depth := Some (VInt 1) |},
       sample_engine,
       [EvLookup "dosage";
        EvQuery (mkQuery (CyGeneral 30) ["id:1"%string] None)]).
Proof.
  assert (H1 : [aspirin] ≠ []) by discriminate.
  assert (H2 : is_set (_intent_patterns sample_engine !! "dosage") = false)
    by reflexivity.
  split_and!; [exact H1 | exact H2 |].
  exact (traverse_general_fallback one_edge_store [aspirin] "dosage" sample_engine
           H1 H2).
Defined.

Lemma traverse_unknown_strategy_witness :
  [aspirin] ≠ []
  ∧ "neighbourhood"%string
      ∉ ["targeted"; "chained"; "variable_hop"; "shortest_path";
         "shared_neighbor"]%string
  ∧ traverse one_edge_store [aspirin] "overview" odd_engine
    = (inr {| nodes := [aspirin; nausea]; relationships := [causes_edge];
              strategy := Some (VStr "neighbourhood"); hop_depth := Some (VInt 1) |},
       odd_engine,
       [EvLookup "overview";
        EvQuery (mkQuery (CyGeneral 30) ["id:1"%string] None)]).
Proof.
  assert (H1 : [aspirin] ≠ []) by discriminate.
  assert (H2 : "neighbourhood"%string
                 ∉ ["targeted"; "chained"; "variable_hop"; "shortest_path";
                    "shared_neighbor"]%string).
  { intros H. repeat (apply elem_of_cons in H as [H | H]; [discriminate |]).
    by apply elem_of_nil in H. }
  split_and!; [exact H1 | exact H2 |].
  exact (traverse_unknown_strategy one_edge_store [aspirin] "overview" odd_engine
           {[ "strategy"%string := VStr "neighbourhood" ]} "neighbourhood"
           H1 eq_refl eq_refl H2).
Defined.

Lemma traverse_malformed_pattern_witness :
  [aspirin] ≠ []
  ∧ _intent_patterns odd_engine !! "bad" = Some (VStr "targeted")
  ∧ truthy (VStr "targeted") = true
  ∧ traverse one_edge_store [aspirin] "bad" odd_engine
    = (inl AttributeError, odd_engine, [EvLookup "bad"]).
Proof.
  assert (H1 : [aspirin] ≠ []) by discriminate.
  assert (H2 : _intent_patterns odd_engine !! "bad" = Some (VStr "targeted"))
    by reflexivity.
  assert (H3 : truthy (VStr "targeted") = true) by reflexivity.
  assert (H4 : ∀ d, VStr "targeted" ≠ VDict d) by discriminate.
  split_and!; [exact H1 | exact H2 | exact H3 |].
  exact (proj1 (traverse_malformed_pattern one_edge_store [aspirin] "bad" odd_engine H1)
           _ H2 H3 H4).
Defined.

Lemma traverse_default_targeted_witness :
  [aspirin] ≠ []
  ∧ _intent_patterns odd_engine !! "plain"
    = Some (VDict {[ "relationship"%string := VStr "CAUSES" ]})
  ∧ ({[ "relationship"%string := VStr "CAUSES" ]} : gmap string value) !! "strategy"
    = None
  ∧ ∃ src tgt anchor,
      trace (traverse one_edge_store [aspirin] "plain" odd_engine)
      = [EvLookup "plain";
         EvQuery (mkQuery (CyTargeted src (VStr "CAUSES") tgt anchor)
                          (node_id <$> [aspirin]) None)]
      ∧ ∀ sg, outcome (traverse one_edge_store [aspirin] "plain" odd_engine) = inr sg →
              strategy sg = Some (VStr "targeted") ∧ hop_depth sg = Some (VInt 1).
Proof.
  assert (H1 : [aspirin] ≠ []) by discriminate.
  assert (H2 : _intent_patterns odd_engine !! "plain"
               = Some (VDict {[ "relationship"%string := VStr "CAUSES" ]}))
    by reflexivity.
  assert (H3 : ({[ "relationship"%string := VStr "CAUSES" ]} : gmap string value)
               ≠ ∅).
  { intros E. apply (f_equal (λ m : gmap string value, m !! "relationship")) in E.
    discriminate E. }
  assert (H4 : ({[ "relationship"%string := VStr "CAUSES" ]} : gmap string value)
                 !! "strategy" = None) by reflexivity.
  split_and!; [exact H1 | exact H2 | exact H4 |].
  exact (proj2 (traverse_default_targeted one_edge_store [aspirin] "plain" odd_engine
                  _ H1 H2 H3 H4) (VStr "CAUSES") eq_refl).
Defined.

Lemma chained_hop_depth_witness :
  outcome (_chained one_edge_store ["id:1"%string] drug_symptom_chain sample_engine)
  = inr ([causes_nausea], VInt 2)
  ∧ ∃ hops entry_node path_tokens,
      drug_symptom_chain !! "hops" = Some hops
      ∧ len hops = inr (Z.of_nat (length path_tokens))
      ∧ VInt 2 = VInt (Z.of_nat (length path_tokens))
      ∧ trace (_chained one_edge_store ["id:1"%string] drug_symptom_chain sample_engine)
        = [EvQuery (mkQuery (CyChained entry_node path_tokens) ["id:1"%string] None)].
Proof.
  assert (H : outcome (_chained one_edge_store ["id:1"%string] drug_symptom_chain
                                sample_engine)
              = inr ([causes_nausea], VInt 2)) by (vm_compute; reflexivity).
  split; [exact H |].
  exact (chained_hop_depth one_edge_store _ _ _ _ _ H).
Defined.

Lemma traverse_hop_depth_witness :
  [aspirin] ≠ []
  ∧ outcome (traverse one_edge_store [aspirin] "connection" sample_engine)
    = inr {| nodes := [aspirin; nausea]; relationships := [causes_edge];
             strategy := Some (VStr "shortest_path"); hop_depth := Some (VInt 6) |}
  ∧ Some (VInt 6)
    = Some (default (VInt 6)
              (({[ "strategy"%string := VStr "shortest_path" ]} : gmap string value)
                 !! "max_hops")).
Proof.
  assert (H1 : [aspirin] ≠ []) by discriminate.
  assert (H2 : outcome (traverse one_edge_store [aspirin] "connection" sample_engine)
               = inr {| nodes := [aspirin; nausea]; relationships := [causes_edge];
                        strategy := Some (VStr "shortest_path");
                        hop_depth := Some (VInt 6) |}) by (vm_compute; reflexivity).
  split_and!; [exact H1 | exact H2 |].
  exact (proj1 (proj2 (traverse_hop_depth one_edge_store [aspirin] "connection"
                         sample_engine {[ "strategy"%string := VStr "shortest_path" ]}
                         "shortest_path" _ H1 eq_refl eq_refl H2)) eq_refl).
Defined.

End Traversal_extra.

(** ** More on the entity extractor *)

Module Extractor_extra.
Import Extractor Extractor_facts.

(** *** Characters *)

Lemma cleaned_char c :
  let c' := lower_char (if is_word_char c || is_space c then c else " "%char) in
  is_space c' = true ∨ is_token_char c' = true.
Proof. destruct c as [[] [] [] [] [] [] [] []]; vm_compute; tauto. Qed.

Lemma cleaned_no_word c :
  is_word_char c = false →
  is_space (lower_char (if is_word_char c || is_space c then c else " "%char)) = true.
Proof. destruct c as [[] [] [] [] [] [] [] []]; vm_compute; congruence. Qed.

Lemma phrase_char_lower c :
  is_token_char c || Ascii.eqb c " " = true → lower_char c = c.
Proof. destruct c as [[] [] [] [] [] [] [] []]; vm_compute; congruence. Qed.

Lemma chars_app s1 s2 :
  String.list_ascii_of_string (s1 +:+ s2)
  = String.list_ascii_of_string s1 ++ String.list_ascii_of_string s2.
Proof. induction s1 as [| c s1 IH]; simpl; [done |]. by rewrite IH. Qed.

Lemma lower_fixed s :
  Forall (λ c, lower_char c = c) (String.list_ascii_of_string s) → lower s = s.
Proof.
  intros H. unfold lower.
  rewrite <- (String.string_of_list_ascii_of_string s) at 2. f_equal.
  revert H. generalize (String.list_ascii_of_string s). intros l H.
  induction H as [| c l Hc _ IH]; [done |]. by rewrite fmap_cons, Hc, IH.
Qed.

(** *** Tokens *)

Lemma split_from_Forall (P : ascii → Prop) cur s :
  Forall P cur → Forall P s → Forall (Forall P) (split_from cur s).
Proof.
  intros Hcur Hs. revert cur Hcur.
  induction Hs as [| c s Hc Hs IH]; intros cur Hcur; simpl.
  - destruct cur; [constructor |]. repeat constructor. by apply Forall_reverse.
  - destruct (is_space c).
    + destruct cur; [by apply IH |].
      constructor; [by apply Forall_reverse | by apply IH].
    + apply IH. by constructor.
Qed.

Lemma split_from_spaces s :
  Forall (λ c, is_space c = true) s → split_from [] s = [].
Proof. induction 1 as [| c s Hc _ IH]; simpl; [done |]. by rewrite Hc. Qed.

Lemma tokenize_tokens query : Forall token_ok (tokenize query).
Proof.
  unfold tokenize, split. apply Forall_fmap.
  set (s := lower_char <$> clean (String.list_ascii_of_string query)).
  assert (Hs : Forall (λ c, is_space c = true ∨ is_token_char c = true) s).
  { unfold s, clean. rewrite <- list_fmap_compose. apply Forall_fmap, Forall_forall.
    intros c _. apply cleaned_char. }
  pose proof (split_from_tokens [] s (Forall_nil_2 _)) as H1.
  pose proof (split_from_Forall _ [] s (Forall_nil_2 _) Hs) as H2.
  pose proof (proj2 (Forall_and _ _) (conj H1 H2)) as H.
  eapply Forall_impl; [exact H |]. clear. intros t [[Hne Hsp] Htok]. split; simpl.
  - destruct t; [done | discriminate].
  - rewrite String.list_ascii_of_string_of_list_ascii.
    rewrite Forall_forall in *. intros c Hc.
    destruct (Htok c Hc) as [H | H]; [| done]. by rewrite (Hsp c Hc) in H.
Qed.

Lemma content_tokens_ok stop_words query :
  Forall token_ok (content_tokens stop_words query).
Proof.
  apply Forall_forall. intros t Ht.
  pose proof (tokenize_tokens query) as H. rewrite Forall_forall in H.
  apply H. by apply (content_tokens_subseteq stop_words).
Qed.

Lemma no_word_no_token query :
  Forall (λ c, is_word_char c = false) (String.list_ascii_of_string query) →
  tokenize query = [].
Proof.
  intros H. unfold tokenize, split. rewrite split_from_spaces; [done |].
  unfold clean. rewrite <- list_fmap_compose. apply Forall_fmap.
  eapply Forall_impl; [exact H |]. intros c Hc. by apply cleaned_no_word.
Qed.

(** *** Phrases *)

Lemma join_chars (P : ascii → Prop) l :
  P " "%char →
  Forall (λ t, Forall P (String.list_ascii_of_string t)) l →
  Forall P (String.list_ascii_of_string (join l)).
Proof.
  intros Hsp. unfold join. induction 1 as [| x l Hx Hl IH]; [constructor |].
  destruct l as [| y l]; [done |].
  change (String.concat " " (x :: y :: l))
    with (x +:+ " " +:+ String.concat " " (y :: l)).
  rewrite !chars_app, !Forall_app. split_and!; [done | | done].
  by repeat constructor.
Qed.

Lemma phrase_lower l : Forall token_ok l → lower (join l) = join l.
Proof.
  intros Hl. apply lower_fixed, join_chars.
  - reflexivity.
  - eapply Forall_impl; [exact Hl |]. intros t [_ Ht].
    eapply Forall_impl; [exact Ht |]. intros c Hc. apply phrase_char_lower.
    by rewrite Hc.
Qed.

Lemma ngrams_take_drop {A} (n : nat) (l : list A) g :
  g ∈ ngrams n l → ∃ i, i + n ≤ length l ∧ g = take n (drop i l).
Proof.
  induction l as [| x l IH]; simpl; [by intros ?%elem_of_nil |].
  rewrite elem_of_app. intros [H | H].
  - case_bool_decide as Hlen; [| by apply elem_of_nil in H].
    apply list_elem_of_singleton in H as ->. exists 0. split; [simpl in *; lia | done].
  - destruct (IH H) as (i & Hi & ->). exists (S i). split; [lia | done].
Qed.

Lemma ngrams_count {A} (n : nat) (l : list A) :
  0 < n → length (ngrams n l) = length l + 1 - n.
Proof.
  intros Hn. by rewrite <- (slices_ngrams n l Hn), length_fmap, range_length, length_seq.
Qed.

(** A candidate is the phrase of an n-gram of the content tokens. *)
Lemma candidate_ngram stop_words query p :
  p ∈ _extract_keywords stop_words query
  ↔ ∃ n, 1 ≤ n ≤ 3 ∧ p ∈ join <$> ngrams n (content_tokens stop_words query).
Proof.
  rewrite extract_keywords_spec. unfold spec_candidates.
  rewrite elem_of_first_by_self, !fmap_app, !elem_of_app. split.
  - intros [H | [H | H]]; [exists 3 | exists 2 | exists 1]; (split; [lia | done]).
  - intros (n & Hn & H).
    assert (n = 1 ∨ n = 2 ∨ n = 3) as [-> | [-> | ->]] by lia; tauto.
Qed.

(** *** Collecting without duplicates *)

Lemma NoDup_fmap_filter {A} (key : A → string) (P : A → Prop)
    `{∀ x, Decision (P x)} (l : list A) :
  NoDup (key <$> l) → NoDup (key <$> filter P l).
Proof.
  induction l as [| x l IH]; simpl; [done |].
  rewrite NoDup_cons. intros [Hx Hl]. rewrite filter_cons.
  destruct (decide (P x)); [| by apply IH].
  simpl. apply NoDup_cons. split; [| by apply IH].
  intros (y & E & Hy)%list_elem_of_fmap. apply list_elem_of_filter in Hy as [_ Hy].
  apply Hx. rewrite E. by apply list_elem_of_fmap_2.
Qed.

Lemma NoDup_first_by {A} (key : A → string) (l : list A) :
  NoDup (key <$> first_by key l).
Proof.
  induction l as [| x l IH]; simpl; [constructor |].
  apply NoDup_cons. split; [| by apply NoDup_fmap_filter].
  intros (y & E & Hy)%list_elem_of_fmap. apply list_elem_of_filter in Hy as [Hne _].
  by apply Hne.
Qed.

Lemma first_by_length {A} (key : A → string) (l : list A) :
  length (first_by key l) ≤ length l.
Proof.
  induction l as [| x l IH]; simpl; [done |].
  pose proof (length_filter (λ y, key y ≠ key x) (first_by key l)). lia.
Qed.

(** *** Keyword extraction *)

(** X15. No candidate phrase occurs twice, so no phrase is looked up
    twice for one query; and a query of [n] content tokens has at most
    [(n - 2) + (n - 1) + n] candidates. *)
Theorem candidates_distinct stop_words query :
  let n := length (content_tokens stop_words query) in
  NoDup (_extract_keywords stop_words query)
  ∧ length (_extract_keywords stop_words query) ≤ (n - 2) + (n - 1) + n.
Proof.
  intros n. rewrite extract_keywords_spec. unfold spec_candidates. split.
  - pose proof (NoDup_first_by (λ p : string, p)
                  (join <$> (ngrams 3 (content_tokens stop_words query)
                             ++ ngrams 2 (content_tokens stop_words query)
                             ++ ngrams 1 (content_tokens stop_words query)))) as H.
    change (λ p : string, p) with (@id string) in H at 1.
    by rewrite list_fmap_id in H.
  - etrans; [apply first_by_length |].
    rewrite length_fmap, !length_app, !ngrams_count by lia. fold n. lia.
Qed.

(** X16. Every candidate is one to three consecutive content tokens
    joined by single spaces; each token is a non-empty string of lower-case
    letters, digits and hyphens, so that a candidate has no capital and is
    its own lower-case form. *)
Theorem candidate_shape stop_words query p :
  p ∈ _extract_keywords stop_words query →
  let tokens := content_tokens stop_words query in
  ∃ i n, 1 ≤ n ≤ 3 ∧ i + n ≤ length tokens
         ∧ p = join (take n (drop i tokens))
         ∧ Forall token_ok (take n (drop i tokens))
         ∧ count_spaces p = n - 1
         ∧ lower p = p.
Proof.
  intros (n & Hn & Hp)%candidate_ngram tokens.
  pose proof (content_tokens_ok stop_words query) as Hok. fold tokens in Hok, Hp.
  pose proof (content_tokens_no_space stop_words query) as Hsp. fold tokens in Hsp.
  pose proof (phrase_spaces n tokens p Hsp Hp) as Hcount.
  apply list_elem_of_fmap in Hp as (g & -> & Hg).
  destruct (ngrams_take_drop n tokens g Hg) as (i & Hi & ->).
  assert (Htok : Forall token_ok (take n (drop i tokens)))
    by by apply Forall_take, Forall_drop.
  exists i, n. split_and!; try done; try lia. by apply phrase_lower.
Qed.

(** X17. When some token of the query is not a stop word, every token
    that is not a stop word is a candidate, and every candidate is made of
    tokens that are not stop words; when every token is a stop word, the
    candidates are those of the query with no stop word list at all. *)
Theorem stop_words_filtered stop_words query :
  (∀ t, t ∈ tokenize query → t ∉ stop_words →
        t ∈ _extract_keywords stop_words query
        ∧ ∀ p, p ∈ _extract_keywords stop_words query →
               ∃ phrase, p = join phrase ∧ phrase ≠ []
                         ∧ Forall (λ t', t' ∈ tokenize query ∧ t' ∉ stop_words) phrase)
  ∧ ((∀ t, t ∈ tokenize query → t ∈ stop_words) →
     _extract_keywords stop_words query = _extract_keywords ∅ query).
Proof.
  split.
  - intros t Ht Hstop.
    assert (Hfilter : content_tokens stop_words query
                      = filter (λ t, t ∉ stop_words) (tokenize query)).
    { unfold content_tokens.
      destruct (filter _ (tokenize query)) as [| t' l] eqn:E; [| done].
      assert (Hin : t ∈ filter (λ t, t ∉ stop_words) (tokenize query))
        by by apply list_elem_of_filter.
      rewrite E in Hin. by apply elem_of_nil in Hin. }
    split.
    + apply candidate_ngram. exists 1. split; [lia |].
      assert (Hin : t ∈ content_tokens stop_words query)
        by (rewrite Hfilter; by apply list_elem_of_filter).
      apply list_elem_of_lookup in Hin as [i Hi].
      apply list_elem_of_fmap. exists [t]. split; [by unfold join; simpl |].
      replace [t] with (take 1 (drop i (content_tokens stop_words query))).
      * apply elem_of_ngrams; [lia |]. apply lookup_lt_Some in Hi. lia.
      * by rewrite (drop_S _ _ _ Hi).
    + intros p (n & Hn & Hp)%candidate_ngram.
      apply list_elem_of_fmap in Hp as (g & -> & Hg).
      exists g. split_and!; [done | |].
      * intros ->. apply ngrams_length in Hg. simpl in Hg. lia.
      * apply (ngrams_Forall _ n (content_tokens stop_words query)); [| done].
        rewrite Hfilter. apply Forall_forall. intros t' Ht'.
        apply list_elem_of_filter in Ht'. tauto.
  - intros Hall. rewrite !extract_keywords_spec. f_equal. unfold content_tokens.
    rewrite (filter_all (λ t, t ∉ (∅ : gset string))) by set_solver.
    destruct (filter (λ t, t ∉ stop_words) (tokenize query)) as [| t l] eqn:E.
    + by destruct (tokenize query).
    + assert (Hin : t ∈ filter (λ t, t ∉ stop_words) (tokenize query))
        by (rewrite E; left).
      apply list_elem_of_filter in Hin as [Hstop Hin]. by destruct (Hstop (Hall t Hin)).
Qed.

(** *** Lookups *)

Section lookup_more.

Context {Store : Type}.
Variable execute_query : Query → Store → (string + list MatchRow) * Store.
Variable ratio : string → string → Q.

Lemma with_store_same (self : QueryTimeEntityExtractor Store) :
  with_store self (connector self) = self.
Proof. by destruct self. Qed.

(** [_find_in_graph], stage by stage. *)
Lemma find_in_graph_run keyword (self : QueryTimeEntityExtractor Store) :
  _find_in_graph execute_query ratio keyword self =
    let qe := exact_query keyword self in
    let qp := partial_query keyword self in
    match execute_query qe (connector self) with
    | (inl msg, s1) => (inl (StoreError msg), with_store self s1, [qe])
    | (inr (r :: rows), s1) =>
        (inr (_row_to_node <$> r :: rows), with_store self s1, [qe])
    | (inr [], s1) =>
        match execute_query qp s1 with
        | (inl msg, s2) => (inl (StoreError msg), with_store self s2, [qe; qp])
        | (inr (r :: rows), s2) =>
            (inr (_row_to_node <$> r :: rows), with_store self s2, [qe; qp])
        | (inr [], s2) =>
            if _fuzzy_available self && bool_decide (3 < String.length keyword) then
              match search_properties self with
              | [] => (inl IndexError, with_store self s2, [qe; qp])
              | primary_prop :: _ =>
                  let qf := fuzzy_query keyword self primary_prop in
                  match execute_query qf s2 with
                  | (inl msg, s3) =>
                      (inl (StoreError msg), with_store self s3, [qe; qp; qf])
                  | (inr rows, s3) =>
                      (inr ((λ p, _row_to_node p.2)
                              <$> best_matches ratio keyword (fuzzy_threshold self) rows),
                       with_store self s3, [qe; qp; qf])
                  end
              end
            else (inr [], with_store self s2, [qe; qp])
        end
    end.
Proof.
  unfold _find_in_graph, bind. rewrite exact_match_run. simpl.
  fold (exact_query keyword self).
  destruct (execute_query _ (connector self)) as [[msg | [| r rows]] s1]; simpl;
    [done | | done].
  rewrite partial_match_run. simpl.
  change (mkQuery (CyPartial _ _) _) with (partial_query keyword self).
  destruct (execute_query _ s1) as [[msg | [| r rows]] s2]; simpl; [done | | done].
  destruct (_fuzzy_available self) eqn:Hav; simpl; [| done].
  case_bool_decide as Hlen; simpl; [| done].
  rewrite fuzzy_match_run. simpl. rewrite Hav.
  destruct (search_properties self) as [| p ps] eqn:Hprops; simpl; [done |].
  change (fuzzy_query keyword (with_store (with_store self s1) s2) p)
    with (fuzzy_query keyword self p).
  destruct (execute_query (fuzzy_query keyword self p) s2) as [[msg | rows] s3];
    simpl; [done |].
  by destruct (_ <$> best_matches _ _ _ _).
Qed.

Ltac all_lookups := repeat (constructor; [assumption |]); constructor.

(** What every lookup comes to: the extractor keeps its settings, the
    queries are lookups of the keyword, at most three, and the nodes
    returned are made from rows of the store. *)
Lemma find_in_graph_inv keyword (self : QueryTimeEntityExtractor Store) :
  let r := _find_in_graph execute_query ratio keyword self in
  (∃ store, self_after r = with_store self store)
  ∧ length (trace r) ≤ 3
  ∧ Forall (lookup_query self keyword) (trace r)
  ∧ ∀ nodes, outcome r = inr nodes →
             Forall (from_store execute_query self [keyword]) nodes.
Proof.
  simpl. rewrite find_in_graph_run. simpl.
  set (qe := exact_query keyword self). set (qp := partial_query keyword self).
  assert (Hqe : lookup_query self keyword qe) by by left.
  assert (Hqp : lookup_query self keyword qp) by (right; by left).
  assert (Hfrom : ∀ q store rows store',
            lookup_query self keyword q →
            execute_query q store = (inr rows, store') →
            Forall (from_store execute_query self [keyword]) (_row_to_node <$> rows)).
  { intros q store rows store' Hq E. apply Forall_forall. intros n Hn.
    exists keyword, q, store, rows, store'. split_and!; [by left | done | done | done]. }
  destruct (execute_query qe (connector self)) as [[msg | [| r rows]] s1] eqn:E1.
  { split_and!; [by eexists | simpl; lia | all_lookups | done]. }
  2: { split_and!; [by eexists | simpl; lia | all_lookups |].
       intros nodes [= <-]. exact (Hfrom _ _ _ _ Hqe E1). }
  destruct (execute_query qp s1) as [[msg | [| r rows]] s2] eqn:E2.
  { split_and!; [by eexists | simpl; lia | all_lookups | done]. }
  2: { split_and!; [by eexists | simpl; lia | all_lookups |].
       intros nodes [= <-]. exact (Hfrom _ _ _ _ Hqp E2). }
  destruct (_fuzzy_available self && _).
  2: { split_and!; [by eexists | simpl; lia | all_lookups |].
       by intros nodes [= <-]. }
  destruct (search_properties self) as [| p ps] eqn:Hprops.
  { split_and!; [by eexists | simpl; lia | all_lookups | done]. }
  assert (Hqf : lookup_query self keyword (fuzzy_query keyword self p)).
  { right. right. exists p. by rewrite Hprops. }
  destruct (execute_query (fuzzy_query keyword self p) s2) as [[msg | rows] s3] eqn:E3.
  { split_and!; [by eexists | simpl; lia | all_lookups | done]. }
  split_and!; [by eexists | simpl; lia | all_lookups |].
  intros nodes [= <-]. apply Forall_fmap, Forall_forall. intros b Hb. simpl.
  destruct (best_matches_spec ratio keyword (fuzzy_threshold self) rows)
    as (_ & Hkept & _).
  rewrite Forall_forall in Hkept. destruct (Hkept b Hb) as [Hrow _].
  pose proof (Hfrom _ _ _ _ Hqf E3) as H. rewrite Forall_forall in H.
  apply H. by apply list_elem_of_fmap_2.
Qed.

(** X18. The three stages are tried in order and the first that finds
    something ends the lookup: rows of the exact stage are returned with no
    other query issued; with no exact match, rows of the partial stage
    are returned and the fuzzy stage is not tried; and when both find
    nothing and the fuzzy stage is unavailable or the keyword has at most
    three characters, the lookup returns nothing after these two queries.
    The partial query runs on the store as the exact query left it. *)
Theorem find_in_graph_stages keyword (self : QueryTimeEntityExtractor Store) :
  let qe := exact_query keyword self in
  let qp := partial_query keyword self in
  (∀ rows s1,
     execute_query qe (connector self) = (inr rows, s1) → rows ≠ [] →
     _find_in_graph execute_query ratio keyword self
     = (inr (_row_to_node <$> rows), with_store self s1, [qe]))
  ∧ (∀ s1 rows s2,
       execute_query qe (connector self) = (inr [], s1) →
       execute_query qp s1 = (inr rows, s2) → rows ≠ [] →
       _find_in_graph execute_query ratio keyword self
       = (inr (_row_to_node <$> rows), with_store self s2, [qe; qp]))
  ∧ (∀ s1 s2,
       execute_query qe (connector self) = (inr [], s1) →
       execute_query qp s1 = (inr [], s2) →
       _fuzzy_available self = false ∨ String.length keyword ≤ 3 →
       _find_in_graph execute_query ratio keyword self
       = (inr [], with_store self s2, [qe; qp])).
Proof.
  intros qe qp. rewrite find_in_graph_run. simpl. fold qe qp. split_and!.
  - intros rows s1 -> Hrows. by destruct rows.
  - intros s1 rows s2 -> -> Hrows. by destruct rows.
  - intros s1 s2 -> -> Hguard.
    assert (_fuzzy_available self && bool_decide (3 < String.length keyword) = false)
      as ->; [| done].
    destruct Hguard as [-> | Hlen]; [done |].
    rewrite bool_decide_eq_false_2 by lia. apply andb_false_r.
Qed.

(** X19. A lookup issues one, two or three queries: the exact one, then
    the partial one, then the fuzzy one on the primary property, all with
    the label restriction and the properties of the extractor; and it
    changes nothing of the extractor but the store. *)
Theorem find_in_graph_trace keyword (self : QueryTimeEntityExtractor Store) :
  let r := _find_in_graph execute_query ratio keyword self in
  let qe := exact_query keyword self in
  let qp := partial_query keyword self in
  (trace r = [qe] ∨ trace r = [qe; qp]
   ∨ ∃ primary_prop, head (search_properties self) = Some primary_prop
                     ∧ trace r = [qe; qp; fuzzy_query keyword self primary_prop])
  ∧ self_after r = with_store self (connector (self_after r)).
Proof.
  simpl. rewrite find_in_graph_run. simpl.
  destruct (execute_query _ (connector self)) as [[msg | [| r rows]] s1];
    [by split; [left |] | | by split; [left |]].
  destruct (execute_query _ s1) as [[msg | [| r rows]] s2];
    [by split; [right; left |] | | by split; [right; left |]].
  destruct (_fuzzy_available self && _); [| by split; [right; left |]].
  destruct (search_properties self) as [| p ps] eqn:Hprops;
    [by split; [right; left |] |].
  destruct (execute_query _ s2) as [[msg | rows] s3];
    (split; [right; right; by exists p | done]).
Qed.

Lemma find_in_graph_store_error keyword (self : QueryTimeEntityExtractor Store) e :
  search_properties self ≠ [] →
  outcome (_find_in_graph execute_query ratio keyword self) = inl e →
  ∃ msg q store, e = StoreError msg
                 ∧ last (trace (_find_in_graph execute_query ratio keyword self)) = Some q
                 ∧ (execute_query q store).1 = inl msg.
Proof.
  intros Hprops. rewrite find_in_graph_run. simpl.
  destruct (execute_query _ (connector self)) as [[msg | [| r rows]] s1] eqn:E1;
    [| | done].
  { intros [= <-]. eexists msg, _, _. split_and!; [done | done |]. by rewrite E1. }
  destruct (execute_query _ s1) as [[msg | [| r rows]] s2] eqn:E2; [| | done].
  { intros [= <-]. eexists msg, _, _. split_and!; [done | done |]. by rewrite E2. }
  destruct (_fuzzy_available self && _); [| done].
  destruct (search_properties self) as [| p ps]; [done |].
  destruct (execute_query _ s2) as [[msg | rows] s3] eqn:E3; [| done].
  intros [= <-]. eexists msg, _, _. split_and!; [done | done |]. by rewrite E3.
Qed.

(** X20. A lookup of an extractor made by the constructor raises nothing
    but a failure of the store: the failure of the last query it issued. *)
Theorem find_in_graph_raises keyword (store : Store)
    props labels extra threshold installed e :
  let self := __init__ store props labels extra threshold installed in
  outcome (_find_in_graph execute_query ratio keyword self) = inl e →
  ∃ msg q store', e = StoreError msg
                  ∧ last (trace (_find_in_graph execute_query ratio keyword self)) = Some q
                  ∧ (execute_query q store').1 = inl msg.
Proof.
  intros self. apply find_in_graph_store_error.
  unfold self, __init__. simpl. by destruct props as [[| p ps] |].
Qed.

(** *** The loop over the candidates *)

Lemma lookup_query_with_store (self : QueryTimeEntityExtractor Store) store keyword q :
  lookup_query (with_store self store) keyword q ↔ lookup_query self keyword q.
Proof. done. Qed.

Lemma from_store_mono (self : QueryTimeEntityExtractor Store) ks ks' n :
  ks ⊆ ks' → from_store execute_query self ks n → from_store execute_query self ks' n.
Proof.
  intros Hsub (k & q & store & rows & store' & Hk & H).
  exists k, q, store, rows, store'. split; [by apply Hsub | done].
Qed.

Lemma add_unseen_ok (acc : gset string * list Node) n :
  Traversal.seen_ok acc → Traversal.seen_ok (add_unseen node_id acc n).
Proof.
  intros Hok. unfold add_unseen. case_bool_decide; [done |].
  by apply Traversal_facts.seen_ok_add.
Qed.

Lemma add_unseen_Forall (P : Node → Prop) (acc : gset string * list Node) n :
  Forall P acc.2 → P n → Forall P (add_unseen node_id acc n).2.
Proof.
  intros Hacc Hn. unfold add_unseen. case_bool_decide; [done |].
  simpl. apply Forall_app. by repeat constructor.
Qed.

Lemma add_all_unseen_ok (acc : gset string * list Node) nodes :
  Traversal.seen_ok acc → Traversal.seen_ok (foldl (add_unseen node_id) acc nodes).
Proof.
  revert acc. induction nodes as [| n l IH]; intros acc Hok; simpl; [done |].
  by apply IH, add_unseen_ok.
Qed.

Lemma add_all_unseen_Forall (P : Node → Prop) (acc : gset string * list Node) nodes :
  Forall P acc.2 → Forall P nodes → Forall P (foldl (add_unseen node_id) acc nodes).2.
Proof.
  intros Hacc Hnodes. revert acc Hacc.
  induction Hnodes as [| n l Hn Hl IH]; intros acc Hacc; simpl; [done |].
  by apply IH, add_unseen_Forall.
Qed.

(** The invariant of the loop of [extract_entry_nodes]. *)
Lemma find_all_inv keywords acc (self : QueryTimeEntityExtractor Store) all :
  keywords ⊆ all →
  let r := find_all execute_query ratio keywords acc self in
  (∃ store, self_after r = with_store self store)
  ∧ length (trace r) ≤ 3 * length keywords
  ∧ Forall (λ q, ∃ keyword, keyword ∈ keywords ∧ lookup_query self keyword q) (trace r)
  ∧ ∀ found, outcome r = inr found →
             (Traversal.seen_ok acc → Traversal.seen_ok found)
             ∧ (Forall (from_store execute_query self all) acc.2 →
                Forall (from_store execute_query self all) found.2).
Proof.
  revert acc self. induction keywords as [| k ks IH]; intros acc self Hsub; simpl.
  { split_and!; [exists (connector self); by rewrite with_store_same | done
                | constructor |].
    by intros found [= <-]. }
  destruct (find_in_graph_inv k self) as ((s1 & Hself) & Hlen & Hq & Hnodes).
  unfold bind.
  destruct (_find_in_graph execute_query ratio k self) as [[[e | nodes] self1] tr1].
  { unfold self_after, trace, outcome in *. simpl in *.
    split_and!; [by exists s1 | lia | | done].
    eapply Forall_impl; [exact Hq |]. intros q H. exists k. split; [by left | done]. }
  unfold self_after, trace, outcome in Hself, Hlen, Hq, Hnodes. simpl in *.
  subst self1.
  assert (Hks : ks ⊆ all) by (intros x Hx; apply Hsub; by right).
  destruct (IH (foldl (add_unseen node_id) acc nodes) (with_store self s1) Hks)
    as ((s2 & Hself2) & Hlen2 & Hq2 & Hfound).
  destruct (find_all execute_query ratio ks _ (with_store self s1))
    as [[r self2] tr2].
  unfold self_after, trace, outcome in *. simpl in *.
  split_and!.
  - exists s2. by rewrite Hself2.
  - rewrite length_app. lia.
  - apply Forall_app. split.
    + eapply Forall_impl; [exact Hq |]. intros q H. exists k. split; [by left | done].
    + eapply Forall_impl; [exact Hq2 |]. intros q (k' & Hk' & H).
      exists k'. split; [by right | done].
  - intros found ->. destruct (Hfound found eq_refl) as [Hok Hfrom]. split.
    + intros Hacc. by apply Hok, add_all_unseen_ok.
    + intros Hacc. apply Hfrom, add_all_unseen_Forall; [done |].
      eapply Forall_impl; [exact (Hnodes nodes eq_refl) |]. intros n Hn.
      eapply from_store_mono; [| exact Hn].
      intros x ->%list_elem_of_singleton. apply Hsub. by left.
Qed.

(** What [extract_entry_nodes] comes to on a query that is not blank. *)
Lemma extract_entry_nodes_inv query (self : QueryTimeEntityExtractor Store) :
  let r := extract_entry_nodes execute_query ratio query self in
  let keywords := _extract_keywords (stop_words self) query in
  (∃ store, self_after r = with_store self store)
  ∧ length (trace r) ≤ 3 * length keywords
  ∧ Forall (λ q, ∃ keyword, keyword ∈ keywords ∧ lookup_query self keyword q) (trace r)
  ∧ ∀ nodes, outcome r = inr nodes →
             NoDup (node_id <$> nodes)
             ∧ Forall (from_store execute_query self keywords) nodes.
Proof.
  simpl. unfold extract_entry_nodes. destruct (blank query).
  { split_and!; [exists (connector self); by rewrite with_store_same | simpl; lia
                | constructor |].
    intros nodes [= <-]. split; constructor. }
  unfold bind, get, ret. simpl.
  set (keywords := _extract_keywords (stop_words self) query).
  destruct (find_all_inv keywords (∅, []) self keywords (reflexivity _))
    as (Hself & Hlen & Hq & Hfound).
  destruct (find_all execute_query ratio keywords (∅, []) self) as [[[e | found] self1] tr].
  { unfold self_after, trace, outcome in *. simpl in *. done. }
  unfold self_after, trace, outcome in *. simpl in *. rewrite app_nil_r.
  split_and!; [done | done | done |].
  intros nodes [= <-]. destruct (Hfound found eq_refl) as [Hok Hfrom]. split.
  - apply Hok. split; [constructor | set_solver].
  - apply Hfrom. constructor.
Qed.

(** X21. The entry nodes returned for a query have pairwise different
    ids, and each of them is made from a row that the store answered to a
    lookup of one of the candidate phrases of the query: no entry node is
    made up. *)
Theorem extract_entry_nodes_from_store query (self : QueryTimeEntityExtractor Store)
    nodes :
  outcome (extract_entry_nodes execute_query ratio query self) = inr nodes →
  NoDup (node_id <$> nodes)
  ∧ ∀ n, n ∈ nodes →
         ∃ keyword q store rows store',
           keyword ∈ _extract_keywords (stop_words self) query
           ∧ lookup_query self keyword q
           ∧ execute_query q store = (inr rows, store')
           ∧ n ∈ _row_to_node <$> rows.
Proof.
  intros Hout.
  destruct (extract_entry_nodes_inv query self) as (_ & _ & _ & H).
  destruct (H nodes Hout) as [Hnd Hfrom]. split; [done |].
  intros n Hn. rewrite Forall_forall in Hfrom. exact (Hfrom n Hn).
Qed.

(** X22. A query without any letter, digit or hyphen is answered with no
    entry node and without any query to the store, blank or not. *)
Theorem extract_entry_nodes_no_word query (self : QueryTimeEntityExtractor Store) :
  Forall (λ c, is_word_char c = false) (String.list_ascii_of_string query) →
  extract_entry_nodes execute_query ratio query self = (inr [], self, []).
Proof.
  intros Hno. unfold extract_entry_nodes. destruct (blank query); [done |].
  unfold bind, get, ret. simpl.
  assert (_extract_keywords (stop_words self) query = []) as ->; [| done].
  rewrite extract_keywords_spec. unfold content_tokens.
  rewrite (no_word_no_token query Hno). by rewrite filter_nil.
Qed.

(** X23. Every query that [extract_entry_nodes] issues is a lookup of one
    of the candidate phrases, whose keyword parameter is the phrase as it
    is; there are at most three queries for each candidate; and the call
    changes nothing of the extractor but the store. *)
Theorem extract_entry_nodes_queries query (self : QueryTimeEntityExtractor Store) :
  let r := extract_entry_nodes execute_query ratio query self in
  let keywords := _extract_keywords (stop_words self) query in
  length (trace r) ≤ 3 * length keywords
  ∧ (∀ q, q ∈ trace r →
          ∃ keyword, keyword ∈ keywords ∧ lookup_query self keyword q
                     ∧ (is_fuzzy q = false → q_params q = PKeyword keyword))
  ∧ self_after r = with_store self (connector (self_after r)).
Proof.
  simpl. destruct (extract_entry_nodes_inv query self) as ((s & Hs) & Hlen & Hq & _).
  split_and!; [done | | by rewrite Hs].
  intros q Hin. rewrite Forall_forall in Hq.
  destruct (Hq q Hin) as (k & Hk & Hlookup). exists k. split_and!; [done | done |].
  destruct (candidate_shape _ _ _ Hk) as (i & n & _ & _ & _ & _ & _ & Hlower).
  destruct Hlookup as [-> | [-> | (p & _ & ->)]]; simpl; [| | done];
    intros _; by rewrite Hlower.
Qed.

End lookup_more.

(** *** From the entry nodes to the subgraph *)

Section pipeline.

Context {StoreE StoreT : Type}.
Variable lookup : Query → StoreE → (string + list MatchRow) * StoreE.
Variable ratio : string → string → Q.
Variable execute_query
  : Traversal.Query → StoreT → (string + list Traversal.Row) * StoreT.

(** X24. When the entry nodes that [extract_entry_nodes] returns are
    given to [traverse], the nodes of the subgraph start with exactly
    these entry nodes, in the order the extractor found them: none is
    dropped as a duplicate and none is altered. *)
Theorem entry_nodes_lead query (extractor : QueryTimeEntityExtractor StoreE)
    entry_nodes intent (engine : Traversal.SmartTraversalEngine StoreT) sg :
  outcome (extract_entry_nodes lookup ratio query extractor) = inr entry_nodes →
  outcome (Traversal.traverse execute_query entry_nodes intent engine) = inr sg →
  ∃ found, Traversal.nodes sg = entry_nodes ++ found
           ∧ Forall Traversal.row_node_ok found.
Proof.
  intros Hentry Hsg.
  destruct (extract_entry_nodes_inv lookup ratio query extractor) as (_ & _ & _ & H).
  destruct (H entry_nodes Hentry) as [Hnd _].
  destruct (Traversal.traverse execute_query entry_nodes intent engine)
    as [[r engine'] tr] eqn:Hrun.
  unfold outcome in Hsg. simpl in Hsg. subst r.
  destruct (Traversal_facts.traverse_returns _ _ _ _ _ _ _ Hrun)
    as [[-> ->] | (rows & Hnodes & _)].
  - by exists [].
  - destruct (Traversal_extra.build_subgraph_found rows entry_nodes)
      as (found & Hfound & Hok).
    exists found. split; [| done].
    by rewrite Hnodes, Hfound, (first_by_NoDup node_id entry_nodes Hnd).
Qed.

End pipeline.

(** *** The properties at the sample extractor *)

Lemma candidate_shape_witness :
  "blood pressure"%string
    ∈ _extract_keywords _DEFAULT_STOP_WORDS "What about Blood Pressure?"
  ∧ ∃ i n, 1 ≤ n ≤ 3
           ∧ i + n ≤ length (content_tokens _DEFAULT_STOP_WORDS
                               "What about Blood Pressure?")
           ∧ "blood pressure"%string
             = join (take n (drop i (content_tokens _DEFAULT_STOP_WORDS
                                       "What about Blood Pressure?")))
           ∧ Forall token_ok
               (take n (drop i (content_tokens _DEFAULT_STOP_WORDS
                                  "What about Blood Pressure?")))
           ∧ count_spaces "blood pressure" = n - 1
           ∧ lower "blood pressure" = "blood pressure"%string.
Proof.
  assert (H : "blood pressure"%string
                ∈ _extract_keywords _DEFAULT_STOP_WORDS "What about Blood Pressure?")
    by (vm_compute; left).
  split; [exact H |].
  exact (candidate_shape _DEFAULT_STOP_WORDS "What about Blood Pressure?"
           "blood pressure" H).
Defined.

Lemma stop_words_filtered_witness :
  "blood"%string ∈ tokenize "What about Blood Pressure?"
  ∧ "blood"%string ∉ _DEFAULT_STOP_WORDS
  ∧ "blood"%string ∈ _extract_keywords _DEFAULT_STOP_WORDS "What about Blood Pressure?".
Proof.
  assert (H1 : "blood"%string ∈ tokenize "What about Blood Pressure?")
    by (vm_compute; do 2 right; left).
  assert (H2 : "blood"%string ∉ _DEFAULT_STOP_WORDS)
    by (apply (bool_decide_unpack _); vm_compute; exact I).
  split_and!; [exact H1 | exact H2 |].
  exact (proj1 (proj1 (stop_words_filtered _DEFAULT_STOP_WORDS
                         "What about Blood Pressure?") "blood"%string H1 H2)).
Defined.

Lemma find_in_graph_stages_witness :
  exact_store (exact_query "aspirin" sample_extractor) (connector sample_extractor)
  = (inr [aspirin_row], tt)
  ∧ [aspirin_row] ≠ []
  ∧ _find_in_graph exact_store sample_ratio "aspirin" sample_extractor
    = (inr (_row_to_node <$> [aspirin_row]), with_store sample_extractor tt,
       [exact_query "aspirin" sample_extractor]).
Proof.
  assert (H1 : exact_store (exact_query "aspirin" sample_extractor)
                 (connector sample_extractor) = (inr [aspirin_row], tt)) by reflexivity.
  assert (H2 : [aspirin_row] ≠ []) by discriminate.
  split_and!; [exact H1 | exact H2 |].
  exact (proj1 (find_in_graph_stages exact_store sample_ratio "aspirin" sample_extractor)
           [aspirin_row] tt H1 H2).
Defined.

Lemma find_in_graph_raises_witness :
  outcome (_find_in_graph down_store sample_ratio "aspirin"
             (__init__ tt None None None None true))
  = inl (StoreError "ServiceUnavailable")
  ∧ ∃ msg q store',
      StoreError "ServiceUnavailable" = StoreError msg
      ∧ last (trace (_find_in_graph down_store sample_ratio "aspirin"
                       (__init__ tt None None None None true))) = Some q
      ∧ (down_store q store').1 = inl msg.
Proof.
  assert (H : outcome (_find_in_graph down_store sample_ratio "aspirin"
                         (__init__ tt None None None None true))
              = inl (StoreError "ServiceUnavailable")) by reflexivity.
  split; [exact H |].
  exact (find_in_graph_raises down_store sample_ratio "aspirin" tt None None None None
           true _ H).
Defined.

Lemma extract_entry_nodes_from_store_witness :
  outcome (extract_entry_nodes sample_store sample_ratio "Asprin?" sample_extractor)
  = inr [_row_to_node aspirin_row]
  ∧ NoDup (node_id <$> [_row_to_node aspirin_row]).
Proof.
  assert (H : outcome (extract_entry_nodes sample_store sample_ratio "Asprin?"
                         sample_extractor)
              = inr [_row_to_node aspirin_row]) by (vm_compute; reflexivity).
  split; [exact H |].
  exact (proj1 (extract_entry_nodes_from_store sample_store sample_ratio "Asprin?"
                  sample_extractor _ H)).
Defined.

Lemma extract_entry_nodes_no_word_witness :
  Forall (λ c, is_word_char c = false) (String.list_ascii_of_string "?!")
  ∧ blank "?!" = false
  ∧ extract_entry_nodes exact_store sample_ratio "?!" sample_extractor
    = (inr [], sample_extractor, []).
Proof.
  assert (H : Forall (λ c, is_word_char c = false) (String.list_ascii_of_string "?!"))
    by (repeat constructor).
  split_and!; [exact H | reflexivity |].
  exact (extract_entry_nodes_no_word exact_store sample_ratio "?!" sample_extractor H).
Defined.

Lemma entry_nodes_lead_witness :
  outcome (extract_entry_nodes sample_store sample_ratio "Asprin?" sample_extractor)
  = inr [Traversal.aspirin]
  ∧ outcome (Traversal.traverse Traversal.one_edge_store [Traversal.aspirin]
               "side_effects" Traversal.sample_engine)
    = inr {| Traversal.nodes := [Traversal.aspirin; Traversal.nausea];
             Traversal.relationships := [Traversal.causes_edge];
             Traversal.strategy := Some (VStr "targeted");
             Traversal.hop_depth := Some (VInt 1) |}
  ∧ ∃ found, [Traversal.aspirin; Traversal.nausea] = [Traversal.aspirin] ++ found
             ∧ Forall Traversal.row_node_ok found.
Proof.
  assert (H1 : outcome (extract_entry_nodes sample_store sample_ratio "Asprin?"
                          sample_extractor)
               = inr [Traversal.aspirin]) by (vm_compute; reflexivity).
  assert (H2 : outcome (Traversal.traverse Traversal.one_edge_store [Traversal.aspirin]
                          "side_effects" Traversal.sample_engine)
               = inr {| Traversal.nodes := [Traversal.aspirin; Traversal.nausea];
                        Traversal.relationships := [Traversal.causes_edge];
                        Traversal.strategy := Some (VStr "targeted");
                        Traversal.hop_depth := Some (VInt 1) |})
    by (vm_compute; reflexivity).
  split_and!; [exact H1 | exact H2 |].
  exact (entry_nodes_lead sample_store sample_ratio Traversal.one_edge_store "Asprin?"
           sample_extractor [Traversal.aspirin] "side_effects" Traversal.sample_engine
           _ H1 H2).
Defined.

End Extractor_extra.
